(** * McTest on Manticore: the harness of [bin/mctest/__main__.py]

    A shallow embedding of the Manticore front end of McTest: the
    [MCoreTest] execution context, the symbolic input injector, the hooks
    bound to the test primitives, the termination callback [done_test] and
    the scheduler [run_test] / [run_tests]. *)

From Stdlib Require Import ZArith NArith List String Ascii Bool Lia.
From Stdlib Require Import DecimalString DecimalNat.
From stdpp Require Import gmap strings list.
Import ListNotations.

Local Open Scope Z_scope.

(** The reason the harness gives when it ends a path itself. *)
Definition OUR_TERMINATION_REASON : string := "I McTest'd it".

(** ** Values handled by the harness *)

(** A Python value as the harness meets it: an [int]/[long] (a [bool] is an
    [int]), a [str], or one of the engine's [Expression] objects.  The
    expressions named here are the ones the harness builds itself
    ([new_symbolic_value], [==]); [Operation] stands for any other
    expression the engine hands over. *)
Inductive Value : Type :=
| VInt (n : Z)
| VStr (s : string)
| BitVecVariable (size : N) (name : string)
| Equal (a b : Value)
| Operation (op : string) (a b : Value).

#[global] Instance Value_eq_dec : EqDecision Value.
Proof. solve_decision. Defined.

(** [isinstance(val, (int, long))] *)
Definition isinstance_int (val : Value) : bool :=
  match val with VInt _ => true | _ => false end.

(** [isinstance(val, str)] *)
Definition isinstance_str (val : Value) : bool :=
  match val with VStr _ => true | _ => false end.

(** [manticore.utils.helpers.issymbolic]: the value is an [Expression]. *)
Definition issymbolic (val : Value) : bool :=
  match val with
  | VInt _ | VStr _ => false
  | BitVecVariable _ _ | Equal _ _ | Operation _ _ _ => true
  end.

(** A value is concrete when it is not an expression. *)
Definition is_concrete (val : Value) : bool := negb (issymbolic val).

(** [ord(c)] *)
Definition ord (c : ascii) : Z := Z.of_N (N_of_ascii c).

(** Python's [True] and [False], which are the integers one and zero. *)
Definition py_bool (b : bool) : Value := VInt (if b then 1 else 0).

(** [a == b]: an [Expression] on either side overloads the operator and
    builds an expression; two plain values are compared. *)
Definition py_eq (a b : Value) : Value :=
  if issymbolic a || issymbolic b then Equal a b
  else py_bool (bool_decide (a = b)).

(** [str(n)] for a natural number, as ["{}".format(n)] prints it. *)
Definition str_of_nat (n : nat) : string :=
  NilEmpty.string_of_uint (Nat.to_uint n).

(** ** Exceptions and the state of one path *)

Inductive Exception : Type :=
| TerminateState (message : string) (testcase : bool)
| AssertionError
| KeyError (key : string)
| SolverException
| EngineFault (what : string).

Inductive Outcome : Type :=
| Pass | Fail | SoftFail | Abandon | AnomalousTermination.

#[global] Instance Outcome_eq_dec : EqDecision Outcome.
Proof. solve_decision. Defined.

(** A discovered test: its name and the address of its entry point. *)
Record TestCase : Type := { name : string; ea : Z }.

(** Modelled from the spec: the dictionary [state.context] that the base
    class [McTest] of [common.py] keeps per path (that file is not part of
    the sources at hand).  It holds the test being run, the outcome recorded
    by the last outcome primitive, the reason given to [Abandon], and the
    leveled log lines. *)
Record Context : Type := {
  info : option TestCase;
  outcome : option Outcome;
  abandon_reason : option Value;
  log : list (Z * string)
}.

(** The engine's state of one path, as far as the harness touches it:
    [state.cpu.PC], the argument registers read by [invoke_model], the
    writes made through [state.cpu.write_int] (oldest first), the constraint
    set, the symbols declared with [new_symbolic_value], and
    [state.context]. *)
Record State : Type := {
  PC : Z;
  arguments : list Value;
  memory : list (Z * Value);
  constraints : list Value;
  input_symbols : list Value;
  context : Context
}.

Definition set_PC (pc : Z) (st : State) : State :=
  {| PC := pc; arguments := arguments st; memory := memory st;
     constraints := constraints st; input_symbols := input_symbols st;
     context := context st |}.

Definition set_arguments (regs : list Value) (st : State) : State :=
  {| PC := PC st; arguments := regs; memory := memory st;
     constraints := constraints st; input_symbols := input_symbols st;
     context := context st |}.

Definition set_context (c : Context) (st : State) : State :=
  {| PC := PC st; arguments := arguments st; memory := memory st;
     constraints := constraints st; input_symbols := input_symbols st;
     context := c |}.

Definition set_outcome (o : Outcome) (c : Context) : Context :=
  {| info := info c; outcome := Some o;
     abandon_reason := abandon_reason c; log := log c |}.

Definition set_abandon_reason (r : Value) (c : Context) : Context :=
  {| info := info c; outcome := outcome c;
     abandon_reason := Some r; log := log c |}.

(** ** Computations on a path: state passing with exceptions *)

Inductive Result (A : Type) : Type :=
| Returned (a : A)
| Raised (e : Exception).
Arguments Returned {A} a.
Arguments Raised {A} e.

(** A method of the harness run on a path: it may change the state and
    either returns or raises; the changes made before a [raise] stay. *)
Definition M (A : Type) : Type := State -> Result A * State.

Definition ret {A} (a : A) : M A := fun st => (Returned a, st).

Definition raise {A} (e : Exception) : M A := fun st => (Raised e, st).

Definition bind {A B} (m : M A) (k : A -> M B) : M B :=
  fun st =>
    match m st with
    | (Returned a, st') => k a st'
    | (Raised e, st') => (Raised e, st')
    end.

Notation "x <- m ;; k" := (bind m (fun x => k))
  (at level 100, m at next level, right associativity).
Notation "m ;;; k" := (bind m (fun _ => k))
  (at level 100, right associativity).

(** [assert b] *)
Definition assert (b : bool) : M unit :=
  if b then ret tt else raise AssertionError.

Definition modify (f : State -> State) : M unit :=
  fun st => (Returned tt, f st).

(** ** The engine's operations on a path *)

Definition add_to_constraints (expr : Value) (st : State) : State :=
  {| PC := PC st; arguments := arguments st; memory := memory st;
     constraints := constraints st ++ [expr];
     input_symbols := input_symbols st; context := context st |}.

Definition declare_symbol (v : Value) (st : State) : State :=
  {| PC := PC st; arguments := arguments st; memory := memory st;
     constraints := constraints st;
     input_symbols := input_symbols st ++ [v]; context := context st |}.

Definition store (where_ : Z) (v : Value) (st : State) : State :=
  {| PC := PC st; arguments := arguments st;
     memory := memory st ++ [(where_, v)];
     constraints := constraints st;
     input_symbols := input_symbols st; context := context st |}.

(** [state.constrain(expr)]: the constraint set is append-only. *)
Definition constrain (expr : Value) : M unit :=
  modify (add_to_constraints expr).

(** [state.new_symbolic_value(nbits, label)]: a new symbol, declared in
    the state. *)
Definition new_symbolic_value (nbits : N) (label : string) : M Value :=
  fun st =>
    let v := BitVecVariable nbits label in
    (Returned v, declare_symbol v st).

(** [state.cpu.write_int(where, expression, 8)]: one byte cell written. *)
Definition write_int (where_ : Z) (expression : Value) : M unit :=
  modify (store where_ expression).

(** The cell at an address holds the value of the last write to it. *)
Definition read_cell (mem : list (Z * Value)) (a : Z) : option Value :=
  snd <$> last (filter (fun w => fst w = a) mem).

(** The least element of a list of integers. *)
Fixpoint minimum (x : Z) (l : list Z) : Z :=
  match l with
  | [] => x
  | y :: l' => minimum (Z.min x y) l'
  end.

(** Duplicates removed, the first occurrence kept. *)
Fixpoint distinct (seen l : list Z) : list Z :=
  match l with
  | [] => []
  | x :: l' =>
      if bool_decide (x ∈ seen) then distinct seen l'
      else x :: distinct (x :: seen) l'
  end.

Section Harness.

(** The solver of the engine, which the harness treats as given: the
    concrete values an expression can take under a constraint set, in the
    order the solver finds them. *)
Variable solutions : list Value -> Value -> list Z.

(** A concrete value is admissible for [val] on a path when the solver
    finds it under the path's constraints. *)
Definition admissible (st : State) (val : Value) (c : Value) : Prop :=
  if issymbolic val then exists z, c = VInt z /\ z ∈ solutions (constraints st) val
  else c = val.

(** Modelled from the spec: the engine capability [solve_one(Value) ->
    concrete], reached as [state.solve_one]: one admissible value; the
    engine raises when there is none. *)
Definition solve_one (val : Value) : M Value :=
  fun st =>
    if issymbolic val then
      match solutions (constraints st) val with
      | z :: _ => (Returned (VInt z), st)
      | [] => (Raised SolverException, st)
      end
    else (Returned val, st).

(** Modelled from the spec: the engine capability [solve_min(Value) ->
    concrete], which the source reaches as [state.solve_n(val)]: the least
    admissible value; a value already concrete is returned unchanged. *)
Definition solve_n (val : Value) : M Value :=
  fun st =>
    if issymbolic val then
      match solutions (constraints st) val with
      | z :: l => (Returned (VInt (minimum z l)), st)
      | [] => (Raised SolverException, st)
      end
    else (Returned val, st).

(** Modelled from the spec: the engine capability [solve_upto(Value, n) ->
    [concrete]], reached as [state.solver.eval_upto]: up to [n] distinct
    admissible values; a value already concrete is returned unchanged. *)
Definition eval_upto (val : Value) (n : Z) : M (list Value) :=
  fun st =>
    if issymbolic val then
      (Returned (VInt <$> take (Z.to_nat n)
                   (distinct [] (solutions (constraints st) val))), st)
    else (Returned [val], st).

(** ** class MCoreTest *)

(** [MCoreTest.is_symbolic] *)
Definition is_symbolic (val : Value) : bool := issymbolic val.

(** [MCoreTest.add_constraint] *)
Definition add_constraint (expr : Value) : M bool :=
  (if is_symbolic expr then constrain expr else ret tt) ;;;
  ret true.

(** [ord(val[0])] after [assert len(val) == 1] *)
Definition ord_of_char (s : string) : M Value :=
  match s with
  | String c rest =>
      assert (bool_decide (rest = EmptyString)) ;;;
      ret (VInt (ord c))
  | EmptyString => raise AssertionError
  end.

(** [MCoreTest.concretize] *)
Definition concretize (val : Value) (constrain_ : bool) : M Value :=
  match val with
  | VInt _ => ret val
  | VStr s => ord_of_char s
  | _ =>
      assert (is_symbolic val) ;;;
      concrete_val <- solve_one val ;;
      concrete_val <- match concrete_val with
                      | VStr s => ord_of_char s
                      | _ => ret concrete_val
                      end ;;
      (if constrain_ then add_constraint (py_eq val concrete_val)
       else ret true) ;;;
      ret concrete_val
  end.

(** [MCoreTest.concretize_min] *)
Definition concretize_min (val : Value) (constrain_ : bool) : M Value :=
  if isinstance_int val then ret val
  else
    concrete_val <- solve_n val ;;
    (if constrain_ then add_constraint (py_eq val concrete_val)
     else ret true) ;;;
    ret concrete_val.

(** [MCoreTest.concretize_many] *)
Definition concretize_many (val : Value) (max_num : Z) : M (list Value) :=
  assert (bool_decide (0 < max_num)) ;;;
  if isinstance_int val then ret [val]
  else eval_upto val max_num.

(** ** class McTest, the base class *)

(** The methods a front end overrides ([self.pass_test()] and the like
    dispatch on the object). *)
Class McTest : Type := {
  pass_test : M unit;
  fail_test : M unit;
  abandon_test : M unit
}.

(** Modelled from the spec: [McTest.pass_test], [McTest.fail_test] and
    [McTest.abandon_test] of [common.py], which record the outcome in the
    context. *)
Definition McTest_pass_test : M unit :=
  modify (fun st => set_context (set_outcome Pass (context st)) st).

Definition McTest_fail_test : M unit :=
  modify (fun st => set_context (set_outcome Fail (context st)) st).

Definition McTest_abandon_test : M unit :=
  modify (fun st => set_context (set_outcome Abandon (context st)) st).

(** Modelled from the spec: [McTest.api_pass], [McTest.api_fail],
    [McTest.api_abandon] and [McTest.api_soft_fail] of [common.py], after
    the table of primitives: Pass, Fail and Abandon record their outcome
    and end the path through the front end's method; SoftFail records its
    outcome and returns. *)
Definition api_pass `{McTest} : M unit := pass_test.

Definition api_fail `{McTest} : M unit := fail_test.

Definition api_abandon `{McTest} (reason : Value) : M unit :=
  modify (fun st => set_context (set_abandon_reason reason (context st)) st) ;;;
  abandon_test.

Definition api_soft_fail : M unit :=
  modify (fun st => set_context (set_outcome SoftFail (context st)) st).

(** Modelled from the spec: [McTest.api_assume] of [common.py]:
    [add_constraint(expr)] if [expr] is symbolic; else no-op. *)
Definition api_assume (arg : Value) : M unit :=
  if is_symbolic arg then add_constraint arg ;;; ret tt else ret tt.

(** Modelled from the spec: [McTest.begin_test] of [common.py]: the
    context of the path is set up anew for the test. *)
Definition begin_test (test : TestCase) : M unit :=
  modify (set_context
    {| info := Some test; outcome := None; abandon_reason := None;
       log := [] |}).

(** A verdict: the test, its outcome and its log lines (the reproducer
    bytes are left out). *)
Record Verdict : Type := {
  test_name : string;
  verdict_outcome : Outcome;
  log_lines : list (Z * string)
}.

(** Modelled from the spec: [McTest.report] of [common.py]: the verdict
    carries the recorded outcome, Abandon when none was recorded. *)
Definition report (st : State) : Verdict :=
  {| test_name := from_option name "" (info (context st));
     verdict_outcome := default Abandon (outcome (context st));
     log_lines := log (context st) |}.

(** The methods of [McTest] that [common.py] defines and no definition
    below looks into: they are taken as given. *)
Variable api_is_symbolic_uint : Value -> M Value.
Variable api_log : Value -> Value -> M unit.
Variable api_stream_int : Value -> Value -> Value -> Value -> M unit.
Variable api_stream_float : Value -> Value -> Value -> Value -> M unit.
Variable api_stream_string : Value -> Value -> Value -> M unit.
Variable api_log_stream : Value -> M unit.
Variable find_test_cases : State -> list TestCase.

(** [MCoreTest.pass_test], [MCoreTest.fail_test],
    [MCoreTest.abandon_test] *)
#[local] Instance MCoreTest : McTest := {|
  pass_test :=
    McTest_pass_test ;;;
    raise (TerminateState OUR_TERMINATION_REASON false);
  fail_test :=
    McTest_fail_test ;;;
    raise (TerminateState OUR_TERMINATION_REASON false);
  abandon_test :=
    McTest_abandon_test ;;;
    raise (TerminateState OUR_TERMINATION_REASON false)
|}.

(** ** The symbolic input *)

(** The symbol made for the byte at offset [i] of the input. *)
Definition input_symbol (i : nat) : Value :=
  BitVecVariable 8 ("MCTEST_INPUT_" +:+ str_of_nat i).

(** The body of the loop of [make_symbolic_input], over the indices left. *)
Fixpoint inject_bytes (input_begin_ea : Z) (indices : list nat)
    (data : list Value) : M (list Value) :=
  match indices with
  | [] => ret data
  | i :: rest =>
      input_byte <- new_symbolic_value 8 ("MCTEST_INPUT_" +:+ str_of_nat i) ;;
      let data := data ++ [input_byte] in
      write_int (input_begin_ea + Z.of_nat i) input_byte ;;;
      inject_bytes input_begin_ea rest data
  end.

(** [make_symbolic_input(state, input_begin_ea, input_end_ea)];
    [xrange(n)] is empty when [n] is not positive. *)
Definition make_symbolic_input (input_begin_ea input_end_ea : Z)
    : M (list Value) :=
  inject_bytes input_begin_ea
    (seq 0 (Z.to_nat (input_end_ea - input_begin_ea))) [].

(** ** The hooks *)

(** A model function, by the number of arguments [invoke_model] decodes
    for it. *)
Inductive Model : Type :=
| Model0 (f : M unit)
| Model1 (f : Value -> M unit)
| Model2 (f : Value -> Value -> M unit)
| Model3 (f : Value -> Value -> Value -> M unit)
| Model4 (f : Value -> Value -> Value -> Value -> M unit).

Definition hook_IsSymbolicUInt : Model :=
  Model1 (fun arg => _ <- api_is_symbolic_uint arg ;; ret tt).

Definition hook_Assume : Model := Model1 (fun arg => api_assume arg).

Definition hook_StreamInt : Model :=
  Model4 (fun level format_ea unpack_ea uint64_ea =>
    api_stream_int level format_ea unpack_ea uint64_ea).

Definition hook_StreamFloat : Model :=
  Model4 (fun level format_ea unpack_ea double_ea =>
    api_stream_float level format_ea unpack_ea double_ea).

Definition hook_StreamString : Model :=
  Model3 (fun level format_ea str_ea =>
    api_stream_string level format_ea str_ea).

Definition hook_LogStream : Model := Model1 (fun level => api_log_stream level).

Definition hook_Pass : Model := Model0 api_pass.

Definition hook_Fail : Model := Model0 api_fail.

Definition hook_Abandon : Model := Model1 (fun reason => api_abandon reason).

Definition hook_SoftFail : Model := Model0 api_soft_fail.

Definition hook_Log : Model := Model2 (fun level ea => api_log level ea).

(** [state.invoke_model(func)]: the arguments are read from the argument
    registers of the state. *)
Definition invoke_model (func : Model) : M unit :=
  fun st =>
    let arg i := nth i (arguments st) (VInt 0) in
    match func with
    | Model0 f => f st
    | Model1 f => f (arg 0%nat) st
    | Model2 f => f (arg 0%nat) (arg 1%nat) st
    | Model3 f => f (arg 0%nat) (arg 1%nat) (arg 2%nat) st
    | Model4 f => f (arg 0%nat) (arg 1%nat) (arg 2%nat) (arg 3%nat) st
    end.

(** [hook(func)] *)
Definition hook (func : Model) : M unit := invoke_model func.

(** ** The end of a path *)

Inductive Level : Type := INFO | ERROR.

(** What the harness lets out: a record of the logger [L], or a verdict
    reported by [McTest.report]. *)
Inductive Event : Type :=
| LogRecord (level : Level) (msg : string)
| Report (v : Verdict).

(** The verdicts among the events. *)
Definition verdicts (evs : list Event) : list Verdict :=
  omap (fun ev => match ev with Report v => Some v | LogRecord _ _ => None end)
       evs.

(** [sub in s] for two strings: [sub] occurs in [s]. *)
Fixpoint contains (sub s : string) : bool :=
  String.prefix sub s ||
  match s with
  | EmptyString => false
  | String _ s' => contains sub s'
  end.

(** [done_test(_, state, state_id, reason)] *)
Definition done_test (state : State) (state_id : nat) (reason : string)
    : list Event :=
  if negb (contains OUR_TERMINATION_REASON reason) then
    [LogRecord ERROR
       ("State " +:+ str_of_nat state_id +:+
        " terminated for unknown reason: " +:+ reason)]
  else
    [Report (report state)].

(** ** The engine driving a test *)

(** One path as the engine explores it: the hooked addresses it reaches,
    each with the argument registers at that point, and the way the engine
    ends the path when no hook has ended it: with a reason of its own, or
    with a fault that leaves [Manticore.run]. *)
Inductive Ending : Type :=
| Exits (reason : string)
| Faults (e : Exception).

Record Path : Type := {
  steps : list (Z * list Value);
  ending : Ending
}.

(** The paths the engine explores from an initial state; the program under
    test and the engine decide them. *)
Variable explore : State -> list Path.

(** The hooks added for an address, run in the order they were added. *)
Fixpoint run_hooks (hooks : list (Z * M unit)) (pc : Z) : M unit :=
  match hooks with
  | [] => ret tt
  | (address, callback) :: hooks' =>
      (if bool_decide (address = pc) then callback else ret tt) ;;;
      run_hooks hooks' pc
  end.

(** Modelled from the spec: the engine capabilities [install_hook],
    [run], [terminate_path] and [on_path_terminated].  A path runs its
    steps; a hook raising [TerminateState] ends the path, and the
    subscriber is called with the state, the path's number and the reason;
    any other exception leaves the run. *)
Fixpoint run_path (hooks : list (Z * M unit))
    (will_terminate_state : State -> nat -> string -> list Event)
    (state_id : nat) (todo : list (Z * list Value)) (ending_ : Ending)
    (st : State) : list Event * Result unit :=
  match todo with
  | [] =>
      match ending_ with
      | Exits reason => (will_terminate_state st state_id reason, Returned tt)
      | Faults e => ([], Raised e)
      end
  | (pc, regs) :: todo' =>
      match run_hooks hooks pc (set_arguments regs (set_PC pc st)) with
      | (Returned _, st') =>
          run_path hooks will_terminate_state state_id todo' ending_ st'
      | (Raised (TerminateState reason _), st') =>
          (will_terminate_state st' state_id reason, Returned tt)
      | (Raised e, _) => ([], Raised e)
      end
  end.

(** The paths of a run, each from its own copy of the initial state; a
    fault in one path ends the run. *)
Fixpoint run_paths (hooks : list (Z * M unit))
    (will_terminate_state : State -> nat -> string -> list Event)
    (state_id : nat) (paths : list Path) (st : State)
    : list Event * Result unit :=
  match paths with
  | [] => ([], Returned tt)
  | p :: paths' =>
      match run_path hooks will_terminate_state state_id
              (steps p) (ending p) st with
      | (evs, Returned _) =>
          let '(evs', r) :=
            run_paths hooks will_terminate_state (S state_id) paths' st in
          (evs ++ evs', r)
      | (evs, Raised e) => (evs, Raised e)
      end
  end.

(** [m.run()] *)
Definition run (hooks : list (Z * M unit))
    (will_terminate_state : State -> nat -> string -> list Event)
    (initial_state : State) : list Event * Result unit :=
  run_paths hooks will_terminate_state 0 (explore initial_state)
    initial_state.

(** ** Running the tests *)

(** [apis[key]] *)
Definition getitem (apis : gmap string Z) (key : string) : Result Z :=
  match apis !! key with
  | Some address => Returned address
  | None => Raised (KeyError key)
  end.

(** The calls to [m.add_hook] of [do_run_test], in their order. *)
Definition hooked_primitives : list (string * Model) :=
  [ ("IsSymbolicUInt", hook_IsSymbolicUInt);
    ("Assume", hook_Assume);
    ("Pass", hook_Pass);
    ("Fail", hook_Fail);
    ("SoftFail", hook_SoftFail);
    ("Abandon", hook_Abandon);
    ("Log", hook_Log);
    ("StreamInt", hook_StreamInt);
    ("StreamFloat", hook_StreamFloat);
    ("StreamString", hook_StreamString);
    ("LogStream", hook_LogStream) ].

Fixpoint add_hooks (apis : gmap string Z) (todo : list (string * Model))
    (hooks : list (Z * M unit)) : Result (list (Z * M unit)) :=
  match todo with
  | [] => Returned hooks
  | (key, func) :: todo' =>
      match getitem apis key with
      | Returned address =>
          add_hooks apis todo' (hooks ++ [(address, hook func)])
      | Raised e => Raised e
      end
  end.

(** [do_run_test(state, apis, test)] *)
Definition do_run_test (state : State) (apis : gmap string Z)
    (test : TestCase) : list Event * Result unit :=
  let state := set_PC (ea test) state in
  match begin_test test state with
  | (Raised e, _) => ([], Raised e)
  | (Returned _, state) =>
  match getitem apis "InputBegin" with
  | Raised e => ([], Raised e)
  | Returned input_begin =>
  match getitem apis "InputEnd" with
  | Raised e => ([], Raised e)
  | Returned input_end =>
  match make_symbolic_input input_begin input_end state with
  | (Raised e, _) => ([], Raised e)
  | (Returned _, state) =>
  match add_hooks apis hooked_primitives [] with
  | Raised e => ([], Raised e)
  | Returned hooks => run hooks done_test state
  end end end end end.

(** What [sys.exc_info()[0]] and [traceback.format_exc()] print for an
    exception. *)
Variable exc_info_type : Exception -> string.
Variable format_exc : Exception -> string.

(** [run_test(state, apis, test)] *)
Definition run_test (state : State) (apis : gmap string Z)
    (test : TestCase) : list Event * Result unit :=
  match do_run_test state apis test with
  | (evs, Returned _) => (evs, Returned tt)
  | (evs, Raised e) =>
      (evs ++ [LogRecord ERROR
                 ("Uncaught exception: " +:+ exc_info_type e +:+
                  String "010" (format_exc e))],
       Returned tt)
  end.

(** [str(n)] for an integer. *)
Definition str_of_Z (n : Z) : string :=
  NilEmpty.string_of_int (Z.to_int n).

Record Args : Type := { num_workers : Z }.

(** What a run of the scheduler leaves: the size of the pool, the records
    of the scheduler itself, for every dispatched task the events of its
    worker and the way the task ended, and the exit status. *)
Record Batch : Type := {
  processes : Z;
  scheduler_log : list Event;
  results : list (list Event * Result unit);
  exit_status : Z
}.

(** [pool.apply_async(func, args)]: the task runs in a worker on its own
    copy of the arguments; what it returns or raises is kept in its
    result. *)
Definition apply_async {A} (func : A -> list Event * Result unit) (args : A)
    : list Event * Result unit :=
  func args.

(** The loop of [run_tests] over the tests left: each is handed to the
    pool and its result appended. *)
Fixpoint dispatch (state : State) (apis : gmap string Z)
    (tests : list TestCase) (results_ : list (list Event * Result unit))
    : list (list Event * Result unit) :=
  match tests with
  | [] => results_
  | test :: tests' =>
      let res := apply_async (run_test state apis) test in
      dispatch state apis tests' (results_ ++ [res])
  end.

(** [run_tests(args, state, apis)]; [exit(0)] ends the process. *)
Definition run_tests (args : Args) (state : State) (apis : gmap string Z)
    : Batch :=
  let tests := find_test_cases state in
  {| processes := Z.max 1 (num_workers args);
     scheduler_log :=
       [LogRecord INFO
          ("Running " +:+ str_of_nat (length tests) +:+
           " tests across " +:+ str_of_Z (num_workers args) +:+ " workers")];
     results := dispatch state apis tests [];
     exit_status := 0 |}.

End Harness.

(** ** An example target *)

(** A state before any test has begun. *)
Definition example_state : State :=
  {| PC := 0; arguments := []; memory := []; constraints := [];
     input_symbols := [];
     context := {| info := None; outcome := None; abandon_reason := None;
                   log := [] |} |}.

(** A table of primitives: a four-byte input buffer at 4096 and the
    primitives at the addresses 101 to 111. *)
Definition example_apis : gmap string Z :=
  list_to_map
    [ ("InputBegin", 4096); ("InputEnd", 4100);
      ("IsSymbolicUInt", 101); ("Assume", 102); ("Pass", 103);
      ("Fail", 104); ("SoftFail", 105); ("Abandon", 106); ("Log", 107);
      ("StreamInt", 108); ("StreamFloat", 109); ("StreamString", 110);
      ("LogStream", 111) ].

(** A solver that finds 66, 65, 67 and 65 again for a symbol, and nothing
    for any other expression. *)
Definition example_solutions (cs : list Value) (val : Value) : list Z :=
  match val with
  | BitVecVariable _ _ => [66; 65; 67; 65]
  | _ => []
  end.

(** Four tests: the first calls Fail, the second ends in the engine with a
    reason of the engine's, the third makes the engine fault, the fourth
    calls SoftFail and then Pass. *)
Definition example_tests : list TestCase :=
  [ {| name := "Fails"; ea := 1 |};
    {| name := "Crashes"; ea := 2 |};
    {| name := "Faults"; ea := 3 |};
    {| name := "Passes"; ea := 4 |} ].

Definition example_explore (st : State) : list Path :=
  if bool_decide (PC st = 1) then
    [ {| steps := [(104, [])]; ending := Exits "program finished" |} ]
  else if bool_decide (PC st = 2) then
    [ {| steps := []; ending := Exits "Invalid memory access" |} ]
  else if bool_decide (PC st = 3) then
    [ {| steps := []; ending := Faults (EngineFault "decoder") |} ]
  else
    [ {| steps := [(105, []); (103, [])];
         ending := Exits "program finished" |} ].

Definition example_exc_info_type (e : Exception) : string :=
  match e with
  | TerminateState _ _ => "<class 'manticore.core.state.TerminateState'>"
  | AssertionError => "<type 'exceptions.AssertionError'>"
  | KeyError _ => "<type 'exceptions.KeyError'>"
  | SolverException => "<class 'manticore.core.smtlib.solver.SolverException'>"
  | EngineFault _ => "<type 'exceptions.Exception'>"
  end.

Definition example_format_exc (e : Exception) : string :=
  "Traceback (most recent call last):".

(** The example run of the scheduler, with one worker. *)
Definition example_batch : Batch :=
  run_tests
    (fun _ => ret (VInt 0)) (fun _ _ => ret tt) (fun _ _ _ _ => ret tt)
    (fun _ _ _ _ => ret tt) (fun _ _ _ => ret tt) (fun _ => ret tt)
    (fun _ => example_tests) example_explore
    example_exc_info_type example_format_exc
    {| num_workers := 1 |} example_state example_apis.

(** ** Typed reads of [MCoreTest] *)

Section Reads.

Variable solutions : list Value -> Value -> list Z.

(** [state.cpu.address_bit_size] and [state.cpu.read_int(ea, size=...)],
    which belong to the engine and are taken as given. *)
Variable address_bit_size : Z.
Variable read_int : Z -> Z -> M Value.

(** [MCoreTest.get_context] *)
Definition get_context (st : State) : Context := context st.

(** [MCoreTest.read_uintptr_t]; [//] rounds down. *)
Definition read_uintptr_t (ea : Z) (concretize_ constrain_ : bool)
    : M (Value * Z) :=
  let addr_size_bits := address_bit_size in
  let next_ea := ea + addr_size_bits `div` 8 in
  val <- read_int ea addr_size_bits ;;
  val <- (if concretize_ then concretize solutions val constrain_
          else ret val) ;;
  ret (val, next_ea).

(** [MCoreTest.read_uint64_t] *)
Definition read_uint64_t (ea : Z) (concretize_ constrain_ : bool)
    : M (Value * Z) :=
  val <- read_int ea 64 ;;
  val <- (if concretize_ then concretize solutions val constrain_
          else ret val) ;;
  ret (val, ea + 8).

(** [MCoreTest.read_uint32_t] *)
Definition read_uint32_t (ea : Z) (concretize_ constrain_ : bool)
    : M (Value * Z) :=
  val <- read_int ea 32 ;;
  val <- (if concretize_ then concretize solutions val constrain_
          else ret val) ;;
  ret (val, ea + 4).

(** [MCoreTest.read_uint8_t] *)
Definition read_uint8_t (ea : Z) (concretize_ constrain_ : bool)
    : M (Value * Z) :=
  val <- read_int ea 8 ;;
  val <- (if concretize_ then concretize solutions val constrain_
          else ret val) ;;
  val <- match val with
         | VStr s => ord_of_char s
         | _ => ret val
         end ;;
  ret (val, ea + 1).

End Reads.

(** The keys [do_run_test] looks up in [apis], in the order it does. *)
Definition required_keys : list string :=
  ["InputBegin"; "InputEnd"; "IsSymbolicUInt"; "Assume"; "Pass"; "Fail";
   "SoftFail"; "Abandon"; "Log"; "StreamInt"; "StreamFloat"; "StreamString";
   "LogStream"].

(** An engine read for the examples: the cell last written at the address,
    zero where nothing was written. *)
Definition example_read_int (ea size : Z) : M Value :=
  fun st => (Returned (default (VInt 0) (read_cell (memory st) ea)), st).

(** The state [st'] is [st] with some constraints appended, [extra], and
    nothing else changed. *)
Definition constraints_appended (extra : list Value) (st st' : State) : Prop :=
  st' = {| PC := PC st; arguments := arguments st; memory := memory st;
           constraints := constraints st ++ extra;
           input_symbols := input_symbols st; context := context st |}.

(** * The Honggfuzz front end of [executors/fuzz/honggfuzz.py]

    Strings are Python 3 strings with characters below 256; the report of
    Honggfuzz is plain text. *)

Module Honggfuzz.

Inductive Error : Type :=
| IndexError
| KeyError (key : string)
| FuzzFrontendError (msg : string)
| FileExistsError (path : string)
| OSError (path : string).

(** [c.isspace()] for a character below 256. *)
Definition isspace (c : ascii) : bool :=
  let n := N_of_ascii c in
  ((9 <=? n) && (n <=? 13) || (28 <=? n) && (n <=? 32)
   || (n =? 133) || (n =? 160))%N.

(** [s.lstrip()], [s.rstrip()] and [s.strip()] *)
Fixpoint lstrip (s : string) : string :=
  match s with
  | EmptyString => EmptyString
  | String c s' => if isspace c then lstrip s' else s
  end.

Fixpoint rstrip (s : string) : string :=
  match s with
  | EmptyString => EmptyString
  | String c s' =>
      match rstrip s' with
      | EmptyString => if isspace c then EmptyString else String c EmptyString
      | r => String c r
      end
  end.

Definition strip (s : string) : string := rstrip (lstrip s).

(** [s.split(sep)] for a separator of one character: the pieces between
    the separators, empty ones included; never the empty list. *)
Fixpoint split (sep : ascii) (s : string) : list string :=
  match s with
  | EmptyString => [EmptyString]
  | String c s' =>
      if bool_decide (c = sep) then EmptyString :: split sep s'
      else
        match split sep s' with
        | piece :: rest => String c piece :: rest
        | [] => [String c EmptyString]
        end
  end.

(** How often a character occurs in a string. *)
Fixpoint count_char (c : ascii) (s : string) : nat :=
  match s with
  | EmptyString => 0
  | String c' s' => (if bool_decide (c' = c) then 1 else 0) + count_char c s'
  end.

(** [sep.join(pieces)] *)
Fixpoint join (sep : string) (pieces : list string) : string :=
  match pieces with
  | [] => EmptyString
  | [piece] => piece
  | piece :: rest => piece +:+ sep +:+ join sep rest
  end.

(** [os.path.join(a, b)] for a relative, non-empty [b]. *)
Definition path_join (a b : string) : string :=
  if bool_decide (a = EmptyString) then b
  else if String.prefix "/" (String.rev a) then a +:+ b
  else a +:+ "/" +:+ b.

(** A Python [dict] with string keys, in the order the keys were put in. *)
Definition dict (V : Type) : Type := list (string * V).

(** [d[k] = v] *)
Fixpoint dict_set {V} (k : string) (v : V) (d : dict V) : dict V :=
  match d with
  | [] => [(k, v)]
  | (k', v') :: d' =>
      if bool_decide (k' = k) then (k, v) :: d'
      else (k', v') :: dict_set k v d'
  end.

(** [d[k]] *)
Fixpoint dict_get {V} (k : string) (d : dict V) : Error + V :=
  match d with
  | [] => inl (KeyError k)
  | (k', v') :: d' =>
      if bool_decide (k' = k) then inr v' else dict_get k d'
  end.

(** The attributes of the front end that the methods below read. *)
Record Frontend : Type := {
  compiler_args : option string;
  out_test_name : string;
  output_test_dir : string;
  input_seeds : option string
}.

(** ** [Honggfuzz.compile] *)

(** [if self.compiler_args:]: neither [None] nor empty. *)
Definition given (o : option string) : bool :=
  match o with
  | Some (String _ _) => true
  | _ => false
  end.

(** [Honggfuzz.compile]: the library, the flags and the name of the
    output handed to [FuzzerFrontend.compile]; [isfile] is what
    [os.path.isfile(lib_path)] answers. *)
Definition compile (self : Frontend) (isfile : bool)
    : string * list string * string :=
  let lib_path := "/usr/local/lib/libdeepstate_HFUZZ.a" in
  let flags := if negb isfile then ["-ldeepstate"]
               else ["-ldeepstate_HFUZZ"] in
  let flags := if given (compiler_args self)
               then flags ++ split " " (default "" (compiler_args self))
               else flags in
  (lib_path, flags, out_test_name self +:+ ".hfuzz").

(** ** [Honggfuzz.pre_exec] *)

(** The entries of [self.output_test_dir]: names, each with whether it is
    a directory. *)
Definition Listing : Type := list (string * bool).

(** [os.path.isdir] of an entry of the directory. *)
Definition isdir (entries : Listing) (entry : string) : bool :=
  bool_decide ((entry, true) ∈ entries).

(** [os.mkdir] of an entry of the directory, which must not exist yet. *)
Definition mkdir (dir entry : string) (entries : Listing)
    : Error + Listing :=
  if bool_decide (entry ∈ entries.*1)
  then inl (FileExistsError (path_join dir entry))
  else inr (entries ++ [(entry, true)]).

(** What [pre_exec] leaves: the attributes it sets, the entries of the
    output directory, whether [create_fake_seeds] was called, and the
    records logged. *)
Record Prepared : Type := {
  push_dir : string;
  pull_dir : string;
  crash_dir : string;
  seeds : option string;
  entries_after : Listing;
  fake_seeds : bool;
  logged : list string
}.

(** [Honggfuzz.pre_exec], from the return of [super().pre_exec()] on;
    [entries] is what the output directory holds then. *)
Definition pre_exec (self : Frontend) (entries : Listing)
    : Error + Prepared :=
  let push := path_join (output_test_dir self) "sync_dir" in
  let pull := push in
  let crash := path_join (output_test_dir self) "crashes" in
  if bool_decide (1 < length entries)%nat then
    if negb (isdir entries "sync_dir") then
      inl (FuzzFrontendError
             ("Can't resume with output directory `" +:+
              output_test_dir self +:+
              "`. No `sync_dir` directory inside."))
    else if negb (isdir entries "crashes") then
      inl (FuzzFrontendError
             ("Can't resume with output directory `" +:+
              output_test_dir self +:+
              "`. No `crashes` directory inside."))
    else
      inr {| push_dir := push; pull_dir := pull; crash_dir := crash;
             seeds := Some push; entries_after := entries;
             fake_seeds := false;
             logged := ["Resuming fuzzing using seeds from " +:+ push +:+
                        " (skipping --input_seeds option)."] |}
  else
    match mkdir (output_test_dir self) "sync_dir" entries with
    | inl e => inl e
    | inr entries1 =>
        match mkdir (output_test_dir self) "crashes" entries1 with
        | inl e => inl e
        | inr entries2 =>
            inr {| push_dir := push; pull_dir := pull; crash_dir := crash;
                   seeds := input_seeds self; entries_after := entries2;
                   fake_seeds :=
                     match input_seeds self with
                     | None => true
                     | Some _ => false
                     end;
                   logged := [] |}
        end
    end.

(** ** [Honggfuzz.stats] and [Honggfuzz.reporter] *)

Definition report_file : string := "HONGGFUZZ.REPORT.TXT".


Definition initial_stats : dict (option string) :=
  [ ("mutationsPerRun", None); ("externalCmd", None); ("fuzzStdin", None);
    ("timeout", None); ("ignoreAddr", None); ("ASLimit", None);
    ("RSSLimit", None); ("DATALimit", None); ("wordlistFile", None);
    ("fuzzTarget", None); ("ORIG_FNAME", None); ("FUZZ_FNAME", None);
    ("PID", None); ("SIGNAL", None); ("FAULT ADDRESS", None);
    ("INSTRUCTION", None); ("STACK HASH", None) ].

(** [l.split(":")[1].strip()] *)
Definition field (l : string) : Error + string :=
  match split ":" l with
  | _ :: piece :: _ => inr (strip piece)
  | _ => inl IndexError
  end.

(** The loop over the keys, for one line. *)
Fixpoint scan_keys (l : string) (keys : list string)
    (stats : dict (option string)) : Error + dict (option string) :=
  match keys with
  | [] => inr stats
  | k :: keys' =>
      if contains k l then
        match field l with
        | inl e => inl e
        | inr v => scan_keys l keys' (dict_set k (Some v) stats)
        end
      else scan_keys l keys' stats
  end.

(** The loop over the lines. *)
Fixpoint scan_lines (lines : list string) (stats : dict (option string))
    : Error + dict (option string) :=
  match lines with
  | [] => inr stats
  | l :: lines' =>
      match scan_keys l stats.*1 stats with
      | inl e => inl e
      | inr stats' => scan_lines lines' stats'
      end
  end.

(** [lines[4:][:-5]] *)
Definition parseable (lines : list string) : list string :=
  let rest := drop 4 lines in
  take (length rest - 5) rest.

(** The body of [Honggfuzz.stats] once the report is read and the
    directory listed: [lines] is what [readlines()] gave for the report and
    [listing] what [os.listdir(out_dir)] gave.  [read_stats] below is the
    method as a whole, with the path, the opening and the listing. *)
Definition stats (lines : list string) (listing : list string)
    : Error + dict (option string) :=
  match scan_lines (parseable lines) initial_stats with
  | inl e => inl e
  | inr stats =>
      let crashes :=
        length (filter (fun name => name <> report_file) listing) in
      inr (dict_set "CRASHES" (Some (str_of_nat crashes)) stats)
  end.

(** Every value in the dictionary was read from a line that has its key. *)
Definition from_lines (lines : list string) (d : dict (option string))
    : Prop :=
  forall k v, dict_get k d = inr (Some v) ->
    exists l, l ∈ lines /\ contains k l = true /\ field l = inr v.





End Honggfuzz.

(** ** An example run of Honggfuzz *)

(** A report as Honggfuzz writes it, cut short. *)
Definition example_report : list string :=
  [ "=====================================================================";
    "TIME: 2019-08-01.12:00:00";
    "=====================================================================";
    "FUZZER ARGS:";
    " mutationsPerRun : 6";
    " timeout         : 1 (sec)";
    " fuzzTarget      : ./Test.hfuzz ";
    "PID: 4242";
    "SIGNAL: SIGSEGV (11)";
    "PID: 4243 : again";
    "FAULT ADDRESS: 0x0";
    "INSTRUCTION: mov_(%rax),%eax";
    "STACK HASH: 0000000000000000";
    "STACK:";
    " <0x0000000000000000> [func:UNKNOWN file: line:0 module:UNKNOWN]";
    "=====================================================================" ].

Definition example_listing : list string :=
  ["HONGGFUZZ.REPORT.TXT"; "SIGSEGV.PC.0.fuzz"; "SIGABRT.PC.1.fuzz"].

Definition example_frontend : Honggfuzz.Frontend :=
  {| Honggfuzz.compiler_args := Some "-O2  -g";
     Honggfuzz.out_test_name := "Test";
     Honggfuzz.output_test_dir := "out";
     Honggfuzz.input_seeds := Some "seeds" |}.



(** The state [st'] is [st] with [o] as the outcome recorded in its
    context; the test, the log, the registers, the memory, the constraints
    and the symbols are as they were. *)
Definition outcome_recorded (o : Outcome) (st st' : State) : Prop :=
  outcome (context st') = Some o /\
  info (context st') = info (context st) /\
  log (context st') = log (context st) /\
  PC st' = PC st /\
  arguments st' = arguments st /\
  memory st' = memory st /\
  constraints st' = constraints st /\
  input_symbols st' = input_symbols st.

(** * Properties *)

(** ** Lists of solutions *)

Lemma minimum_le_start (x : Z) (l : list Z) : minimum x l <= x.
Proof.
  revert x. induction l as [|y l IH]; intros x; simpl; [lia|].
  specialize (IH (Z.min x y)). lia.
Qed.

Lemma minimum_lower_bound (x : Z) (l : list Z) (z : Z) :
  z ∈ x :: l -> minimum x l <= z.
Proof.
  revert x. induction l as [|y l IH]; intros x Hz; simpl.
  - apply list_elem_of_singleton in Hz. lia.
  - apply elem_of_cons in Hz as [->|Hz].
    + pose proof (minimum_le_start (Z.min x y) l). lia.
    + apply elem_of_cons in Hz as [->|Hz].
      * pose proof (minimum_le_start (Z.min x y) l). lia.
      * apply IH. apply elem_of_cons. now right.
Qed.

Lemma minimum_elem (x : Z) (l : list Z) : minimum x l ∈ x :: l.
Proof.
  revert x. induction l as [|y l IH]; intros x; simpl.
  - apply elem_of_cons. now left.
  - specialize (IH (Z.min x y)).
    apply elem_of_cons in IH as [IH|IH].
    + rewrite IH. destruct (Z.min_spec x y) as [[_ ->]|[_ ->]].
      * apply elem_of_cons. now left.
      * apply elem_of_cons. right. apply elem_of_cons. now left.
    + apply elem_of_cons. right. apply elem_of_cons. now right.
Qed.

Lemma distinct_elem (seen l : list Z) (x : Z) :
  x ∈ distinct seen l -> x ∈ l /\ x ∉ seen.
Proof.
  revert seen. induction l as [|y l IH]; intros seen; simpl.
  - intros H. now apply elem_of_nil in H.
  - case_bool_decide as Hy.
    + intros H. apply IH in H as [H1 H2]. split; [|assumption].
      apply elem_of_cons. now right.
    + intros H. apply elem_of_cons in H as [->|H].
      * split; [apply elem_of_cons; now left|assumption].
      * apply IH in H as [H1 H2]. split.
        -- apply elem_of_cons. now right.
        -- intros Hs. apply H2. apply elem_of_cons. now right.
Qed.

Lemma distinct_NoDup (seen l : list Z) : NoDup (distinct seen l).
Proof.
  revert seen. induction l as [|y l IH]; intros seen; simpl.
  - constructor.
  - case_bool_decide as Hy; [apply IH|].
    constructor; [|apply IH].
    intros H. apply distinct_elem in H as [_ H]. apply H.
    apply elem_of_cons. now left.
Qed.

Lemma take_NoDup {A} (n : nat) (l : list A) : NoDup l -> NoDup (take n l).
Proof.
  intros H. eapply sublist_NoDup; [exact H|apply sublist_take].
Qed.

#[global] Instance VInt_inj : Inj (=) (=) VInt.
Proof. intros x y H. now injection H. Qed.

(** ** Concretizing *)

Section Concretize.

Variable solutions : list Value -> Value -> list Z.

(** C5, as amended: [concretize_min] returns every concrete value
    unchanged, and [concretize] returns every concrete integer unchanged,
    whatever [constrain] is and with the state of the path as it was; a
    concrete one-character string, though, [concretize] turns into the
    code of its character. *)
Theorem concretize_concrete (val : Value) (constrain_ : bool) (st : State) :
  is_concrete val = true ->
  concretize_min solutions val constrain_ st = (Returned val, st) /\
  (isinstance_int val = true ->
     concretize solutions val constrain_ st = (Returned val, st)) /\
  (forall c, val = VStr (String c EmptyString) ->
     concretize solutions val constrain_ st = (Returned (VInt (ord c)), st)).
Proof.
  intros Hc.
  destruct val as [n|s| | |]; try discriminate Hc.
  - repeat split. intros c H. discriminate H.
  - split; [|split].
    + unfold concretize_min, bind, solve_n. simpl.
      destruct constrain_; [|reflexivity].
      unfold add_constraint, bind, is_symbolic, py_eq. simpl.
      reflexivity.
    + discriminate.
    + intros c H. injection H as ->. reflexivity.
Qed.

(** C6: for a symbolic value that has an admissible value under the
    constraints of the path, [concretize_min] returns the least admissible
    value, and returns the same on every state with these constraints. *)
Theorem concretize_min_least (val : Value) (constrain_ : bool) (st : State) :
  issymbolic val = true ->
  solutions (constraints st) val <> [] ->
  exists m : Z,
    fst (concretize_min solutions val constrain_ st) = Returned (VInt m) /\
    admissible solutions st val (VInt m) /\
    (forall c, admissible solutions st val c ->
       exists z, c = VInt z /\ m <= z) /\
    (forall st', constraints st' = constraints st ->
       fst (concretize_min solutions val constrain_ st')
         = Returned (VInt m)).
Proof.
  intros Hsym Hne.
  destruct (solutions (constraints st) val) as [|z l] eqn:Hsol; [done|].
  assert (Hint : isinstance_int val = false) by (destruct val; done).
  assert (Hrun : forall st', constraints st' = constraints st ->
            fst (concretize_min solutions val constrain_ st')
              = Returned (VInt (minimum z l))).
  { intros st' Hcs. unfold concretize_min, bind, solve_n.
    rewrite Hint, Hsym, Hcs, Hsol.
    destruct constrain_; simpl; [|reflexivity].
    unfold add_constraint, bind, is_symbolic.
    destruct (issymbolic (py_eq val (VInt (minimum z l)))); reflexivity. }
  exists (minimum z l). split; [now apply Hrun|]. split; [|split].
  - unfold admissible. rewrite Hsym, Hsol. exists (minimum z l).
    split; [reflexivity|apply minimum_elem].
  - unfold admissible. rewrite Hsym, Hsol. intros c (y & -> & Hy).
    exists y. split; [reflexivity|now apply minimum_lower_bound].
  - exact Hrun.
Qed.

Lemma distinct_complete (seen l : list Z) (z : Z) :
  z ∈ l -> z ∉ seen -> z ∈ distinct seen l.
Proof.
  revert seen. induction l as [|y l IH]; intros seen Hz Hs; simpl.
  - now apply elem_of_nil in Hz.
  - apply elem_of_cons in Hz. case_bool_decide as Hy.
    + destruct Hz as [->|Hz]; [done|]. now apply IH.
    + destruct (decide (z = y)) as [->|Hne].
      * apply elem_of_cons. now left.
      * apply elem_of_cons. right. destruct Hz as [Hz|Hz]; [done|].
        apply IH; [exact Hz|]. intros Hin.
        apply elem_of_cons in Hin as [Hin|Hin]; done.
Qed.

(** C8: [concretize_many] fails its assertion when [max_num] is not
    positive (the spec's InvalidArgument); for a positive [max_num] it
    returns the list [[val]] for a concrete [val], and for a symbolic
    [val] what the engine's [eval_upto] gives for [val] and [max_num]: at
    most [max_num] values, distinct and each admissible under the
    constraints of the path, and, whenever fewer than [max_num] come back,
    all the admissible values there are. *)
Theorem concretize_many_bounded (val : Value) (max_num : Z) (st : State) :
  (max_num <= 0 ->
     concretize_many solutions val max_num st = (Raised AssertionError, st)) /\
  (0 < max_num -> is_concrete val = true ->
     concretize_many solutions val max_num st = (Returned [val], st)) /\
  (0 < max_num -> issymbolic val = true ->
     exists l : list Value,
       concretize_many solutions val max_num st = (Returned l, st) /\
       eval_upto solutions val max_num st = (Returned l, st) /\
       Z.of_nat (length l) <= max_num /\
       NoDup l /\
       Forall (admissible solutions st val) l /\
       (Z.of_nat (length l) < max_num ->
          forall c, admissible solutions st val c -> c ∈ l)).
Proof.
  unfold concretize_many, bind, assert. repeat split.
  - intros H. case_bool_decide; [lia|reflexivity].
  - intros H Hc. case_bool_decide; [|lia]. simpl.
    destruct val; try discriminate Hc; reflexivity.
  - intros H Hs. case_bool_decide; [|lia]. simpl.
    assert (Hint : isinstance_int val = false) by (destruct val; done).
    rewrite Hint. unfold eval_upto. rewrite Hs.
    eexists. split; [reflexivity|]. split; [reflexivity|].
    split; [|split; [|split]].
    + rewrite length_fmap, length_take. lia.
    + apply (NoDup_fmap_2 _). apply take_NoDup, distinct_NoDup.
    + apply Forall_fmap, Forall_forall. intros z Hz. simpl.
      unfold admissible. rewrite Hs. exists z. split; [reflexivity|].
      apply (subseteq_take (Z.to_nat max_num)) in Hz.
      now apply distinct_elem in Hz as [Hz _].
    + rewrite length_fmap, length_take. intros Hlt c Hadm.
      unfold admissible in Hadm. rewrite Hs in Hadm.
      destruct Hadm as (z & -> & Hz).
      apply list_elem_of_fmap. exists z. split; [reflexivity|].
      rewrite take_ge by lia.
      apply distinct_complete; [exact Hz|]. apply not_elem_of_nil.
Qed.

End Concretize.

(** ** Strings *)

Lemma app_cons (a : ascii) (s t : string) :
  String a s +:+ t = String a (s +:+ t).
Proof. reflexivity. Qed.

Lemma app_empty (t : string) : EmptyString +:+ t = t.
Proof. reflexivity. Qed.

Lemma app_assoc_string (s t u : string) : (s +:+ t) +:+ u = s +:+ t +:+ u.
Proof.
  induction s as [|a s IH]; [reflexivity|].
  rewrite !app_cons. now rewrite IH.
Qed.

Lemma prefix_app (s post : string) : String.prefix s (s +:+ post) = true.
Proof.
  induction s as [|a s IH]; rewrite ?app_cons, ?app_empty.
  - destruct post; reflexivity.
  - simpl. destruct (ascii_dec a a); [exact IH|congruence].
Qed.

Lemma prefix_split (s1 s2 : string) :
  String.prefix s1 s2 = true -> exists post, s2 = s1 +:+ post.
Proof.
  revert s2. induction s1 as [|a s1 IH]; intros s2 H.
  - exists s2. reflexivity.
  - destruct s2 as [|b s2]; [discriminate H|].
    simpl in H. destruct (ascii_dec a b) as [->|]; [|discriminate H].
    apply IH in H as [post ->]. exists post. reflexivity.
Qed.

Lemma contains_prefix (sub s : string) :
  String.prefix sub s = true -> contains sub s = true.
Proof.
  intros H. destruct s; cbn [contains]; rewrite H; reflexivity.
Qed.

Lemma contains_app (sub pre post : string) :
  contains sub (pre +:+ sub +:+ post) = true.
Proof.
  induction pre as [|a pre IH]; rewrite ?app_cons, ?app_empty.
  - apply contains_prefix, prefix_app.
  - simpl. rewrite IH. apply orb_true_r.
Qed.

Lemma contains_split (sub s : string) :
  contains sub s = true -> exists pre post, s = pre +:+ sub +:+ post.
Proof.
  induction s as [|a s IH]; cbn [contains]; intros H.
  - rewrite orb_false_r in H. apply prefix_split in H as [post ->].
    exists EmptyString, post. reflexivity.
  - apply orb_true_iff in H as [H|H].
    + apply prefix_split in H as [post ->].
      exists EmptyString, post. reflexivity.
    + apply IH in H as (pre & post & ->).
      exists (String a pre), post. reflexivity.
Qed.

Lemma app_empty_r (s : string) : s +:+ EmptyString = s.
Proof.
  induction s as [|a s IH]; [reflexivity|]. rewrite app_cons. now rewrite IH.
Qed.

Lemma contains_suffix (sub pre : string) : contains sub (pre +:+ sub) = true.
Proof.
  rewrite <- (app_empty_r sub) at 2. apply contains_app.
Qed.

(** ** The end of a path *)

(** C10: whenever the reason of a termination has the harness's reason
    ["I McTest'd it"] somewhere inside it, with anything before and after,
    [done_test] takes the path as ended by the harness and reports it. *)
Theorem done_test_substring (st : State) (state_id : nat)
    (pre post : string) :
  done_test st state_id (pre +:+ OUR_TERMINATION_REASON +:+ post)
    = [Report (report st)].
Proof.
  unfold done_test. now rewrite contains_app.
Qed.

(** C1, as amended: when the reason of a termination does not contain the
    harness's reason, [done_test] logs one error record, which carries the
    number of the state and the reason as given, and reports no verdict (so
    none with outcome Pass); a path the engine ends with such a reason
    leaves exactly this record. *)
Theorem done_test_unknown_reason (hooks : list (Z * M unit)) (st : State)
    (state_id : nat) (reason : string) :
  contains OUR_TERMINATION_REASON reason = false ->
  let msg := "State " +:+ str_of_nat state_id +:+
             " terminated for unknown reason: " +:+ reason in
  done_test st state_id reason = [LogRecord ERROR msg] /\
  contains reason msg = true /\
  verdicts (done_test st state_id reason) = [] /\
  run_path hooks done_test state_id [] (Exits reason) st
    = ([LogRecord ERROR msg], Returned tt).
Proof.
  intros H msg.
  assert (Hd : done_test st state_id reason = [LogRecord ERROR msg]).
  { unfold done_test. now rewrite H. }
  repeat split.
  - exact Hd.
  - unfold msg. rewrite <- !app_assoc_string. apply contains_suffix.
  - now rewrite Hd.
  - simpl. now rewrite Hd.
Qed.

(** ** Constraints and outcomes *)

Lemma app_singleton_neq {A} (l : list A) (x : A) : l ++ [x] <> l.
Proof.
  intros H. apply (f_equal length) in H. rewrite length_app in H.
  simpl in H. lia.
Qed.

(** C7: [add_constraint] leaves the state as it is for a concrete
    expression and appends a symbolic one to the constraints of the path,
    returning [True] either way; the hook of Assume, run on its argument,
    appends the argument to the constraints exactly when it is symbolic. *)
Theorem add_constraint_symbolic_only (expr : Value) (st : State) :
  add_constraint expr st
    = (Returned true,
       if issymbolic expr then add_to_constraints expr st else st) /\
  (let arg := nth 0%nat (arguments st) (VInt 0) in
   hook hook_Assume st
     = (Returned tt,
        if issymbolic arg then add_to_constraints arg st else st) /\
   (constraints (snd (hook hook_Assume st)) = constraints st ++ [arg]
      <-> issymbolic arg = true)).
Proof.
  split; [|intros arg; split].
  - unfold add_constraint, bind, is_symbolic.
    destruct (issymbolic expr); reflexivity.
  - unfold hook, invoke_model, hook_Assume, api_assume, is_symbolic.
    fold arg. destruct (issymbolic arg) eqn:E; [|reflexivity].
    unfold add_constraint, bind, is_symbolic. now rewrite E.
  - unfold hook, invoke_model, hook_Assume, api_assume, is_symbolic.
    fold arg. destruct (issymbolic arg) eqn:E.
    + unfold add_constraint, bind, is_symbolic. rewrite E. simpl.
      split; reflexivity || trivial.
    + simpl. split; [|discriminate].
      intros H. symmetry in H. now apply app_singleton_neq in H.
Qed.

Lemma contains_ours : contains OUR_TERMINATION_REASON OUR_TERMINATION_REASON = true.
Proof. reflexivity. Qed.

Lemma done_test_ours (st : State) (state_id : nat) :
  done_test st state_id OUR_TERMINATION_REASON = [Report (report st)].
Proof. unfold done_test. now rewrite contains_ours. Qed.

(** C3: the hooks of Pass, Fail and Abandon record their outcome in the
    context ([Abandon] its reason too), change nothing else, and raise
    [TerminateState] with the harness's reason; the hook of SoftFail
    records SoftFail and returns.  On a path, a Pass ends the path and is
    reported with outcome Pass; after a SoftFail the path goes on: a Pass
    or a Fail that follows is what is reported, and with nothing following
    the path runs to its own end with SoftFail recorded. *)
Theorem outcome_primitives (st : State) (soft pass fail : Z)
    (regs regs' : list Value) (state_id : nat) (ending_ : Ending) :
  soft <> pass -> soft <> fail -> pass <> fail ->
  let ours := TerminateState OUR_TERMINATION_REASON false in
  let hooks := [(pass, hook hook_Pass); (fail, hook hook_Fail);
                (soft, hook hook_SoftFail)] in
  let reported todo :=
    verdict_outcome <$>
      verdicts (fst (run_path hooks done_test state_id todo ending_ st)) in
  (exists st', hook hook_Pass st = (Raised ours, st') /\
               outcome_recorded Pass st st' /\
               abandon_reason (context st') = abandon_reason (context st)) /\
  (exists st', hook hook_Fail st = (Raised ours, st') /\
               outcome_recorded Fail st st' /\
               abandon_reason (context st') = abandon_reason (context st)) /\
  (exists st', hook hook_Abandon st = (Raised ours, st') /\
               outcome_recorded Abandon st st' /\
               abandon_reason (context st')
                 = Some (nth 0%nat (arguments st) (VInt 0))) /\
  (exists st', hook hook_SoftFail st = (Returned tt, st') /\
               outcome_recorded SoftFail st st' /\
               abandon_reason (context st') = abandon_reason (context st)) /\
  reported [(pass, regs)] = [Pass] /\
  reported [(fail, regs)] = [Fail] /\
  reported [(soft, regs); (pass, regs')] = [Pass] /\
  reported [(soft, regs); (fail, regs')] = [Fail] /\
  (exists st',
     outcome_recorded SoftFail (set_arguments regs (set_PC soft st)) st' /\
     run_path hooks done_test state_id [(soft, regs)] ending_ st
       = run_path hooks done_test state_id [] ending_ st').
Proof.
  intros Hsp Hsf Hpf ours hooks reported.
  assert (Hpass : forall s, run_hooks hooks pass s = hook hook_Pass s).
  { intros s. unfold hooks. cbn [run_hooks]. unfold bind.
    rewrite bool_decide_eq_true_2 by reflexivity. reflexivity. }
  assert (Hfail : forall s, run_hooks hooks fail s = hook hook_Fail s).
  { intros s. unfold hooks. cbn [run_hooks]. unfold bind.
    rewrite bool_decide_eq_false_2 by congruence.
    rewrite bool_decide_eq_true_2 by reflexivity. reflexivity. }
  assert (Hsoft : forall s, run_hooks hooks soft s = hook hook_SoftFail s).
  { intros s. unfold hooks. cbn [run_hooks]. unfold bind.
    rewrite !bool_decide_eq_false_2 by congruence.
    rewrite bool_decide_eq_true_2 by reflexivity. reflexivity. }
  split; [|split; [|split; [|split]]].
  - eexists. split; [reflexivity|]. repeat split.
  - eexists. split; [reflexivity|]. repeat split.
  - eexists. split; [reflexivity|]. repeat split.
  - eexists. split; [reflexivity|]. repeat split.
  - unfold reported. cbn [run_path]. rewrite Hpass, Hfail, !Hsoft.
    cbn [hook invoke_model hook_Pass hook_Fail hook_SoftFail api_pass
         api_fail api_soft_fail pass_test fail_test MCoreTest modify bind].
    unfold McTest_pass_test, McTest_fail_test, bind, modify, raise.
    cbn [run_path]. rewrite Hpass, Hfail.
    cbn [hook invoke_model hook_Pass hook_Fail api_pass api_fail pass_test
         fail_test MCoreTest].
    unfold McTest_pass_test, McTest_fail_test, bind, modify, raise.
    rewrite !done_test_ours.
    repeat split. eexists. split; [|reflexivity]. repeat split.
Qed.

(** ** The symbolic input *)

Lemma str_of_nat_inj (i j : nat) : str_of_nat i = str_of_nat j -> i = j.
Proof.
  unfold str_of_nat. intros H.
  apply (f_equal NilEmpty.uint_of_string) in H.
  rewrite !NilEmpty.usu in H. injection H as H.
  now apply DecimalNat.Unsigned.to_uint_inj.
Qed.

#[global] Instance input_symbol_inj : Inj (=) (=) input_symbol.
Proof.
  intros i j H. unfold input_symbol in H.
  assert (H' : "MCTEST_INPUT_" +:+ str_of_nat i
               = "MCTEST_INPUT_" +:+ str_of_nat j) by congruence.
  apply str_of_nat_inj. exact (String.app_inj _ _ _ H').
Qed.

Lemma inject_bytes_run (b : Z) (indices : list nat) (data : list Value)
    (st : State) :
  inject_bytes b indices data st
    = (Returned (data ++ (input_symbol <$> indices)),
       {| PC := PC st; arguments := arguments st;
          memory := memory st ++
            ((fun i => (b + Z.of_nat i, input_symbol i)) <$> indices);
          constraints := constraints st;
          input_symbols := input_symbols st ++ (input_symbol <$> indices);
          context := context st |}).
Proof.
  revert data st. induction indices as [|i rest IH]; intros data st.
  - simpl. rewrite !app_nil_r. now destruct st.
  - cbn [inject_bytes]. unfold bind, new_symbolic_value, write_int, modify.
    rewrite IH. cbn [fmap list_fmap]. unfold input_symbol at 1 3 5.
    cbn [store declare_symbol PC arguments memory constraints input_symbols
         context].
    rewrite <- !app_assoc. reflexivity.
Qed.

Lemma filter_writes (a b : Z) (s n : nat) :
  filter (fun w : Z * Value => fst w = a)
    ((fun i => (b + Z.of_nat i, input_symbol i)) <$> seq s n)
  = if bool_decide (b + Z.of_nat s <= a < b + Z.of_nat s + Z.of_nat n)
    then [(a, input_symbol (Z.to_nat (a - b)))] else [].
Proof.
  revert s. induction n as [|n IH]; intros s.
  - simpl. case_bool_decide; [lia|reflexivity].
  - cbn [seq fmap list_fmap]. rewrite filter_cons. cbn [fst].
    change (list_fmap _ _ ?f ?l) with (f <$> l). rewrite IH.
    destruct (decide (b + Z.of_nat s = a)) as [E|E].
    + rewrite bool_decide_eq_false_2 by lia.
      rewrite bool_decide_eq_true_2 by lia.
      replace (Z.to_nat (a - b)) with s by lia. now rewrite E.
    + case_bool_decide; case_bool_decide; try reflexivity; lia.
Qed.

(** C9: [make_symbolic_input] declares one new symbol per address of the
    range, named after its offset, writes it at its address — the writes
    go up through the addresses, one each — and returns the symbols in
    this order, as many as the range is long.  The symbols differ from one
    another, each address of the range then holds its own symbol, addresses
    outside keep what they held, and the symbols of the context stay
    distinct when none of the new ones was declared before. *)
Theorem make_symbolic_input_injects (input_begin_ea input_end_ea : Z)
    (st : State) :
  let n := Z.to_nat (input_end_ea - input_begin_ea) in
  let data := input_symbol <$> seq 0 n in
  exists st' : State,
    make_symbolic_input input_begin_ea input_end_ea st = (Returned data, st') /\
    memory st' = memory st ++
      ((fun i => (input_begin_ea + Z.of_nat i, input_symbol i)) <$> seq 0 n) /\
    input_symbols st' = input_symbols st ++ data /\
    constraints st' = constraints st /\
    context st' = context st /\
    (input_begin_ea <= input_end_ea ->
       Z.of_nat (length data) = input_end_ea - input_begin_ea) /\
    NoDup data /\
    (forall a, input_begin_ea <= a < input_end_ea ->
       read_cell (memory st') a
         = Some (input_symbol (Z.to_nat (a - input_begin_ea)))) /\
    (forall a, ~ (input_begin_ea <= a < input_end_ea) ->
       read_cell (memory st') a = read_cell (memory st) a) /\
    (NoDup (input_symbols st) ->
     (forall v, v ∈ input_symbols st -> v ∉ data) ->
     NoDup (input_symbols st')).
Proof.
  intros n data. unfold make_symbolic_input. fold n.
  rewrite inject_bytes_run. eexists. split; [reflexivity|].
  cbn [memory input_symbols constraints context].
  assert (Hnd : NoDup data).
  { apply (NoDup_fmap_2 _), NoDup_seq. }
  repeat split; try assumption.
  - intros H. unfold data. rewrite length_fmap, length_seq. lia.
  - intros a Ha. unfold read_cell. rewrite filter_app, filter_writes.
    rewrite bool_decide_eq_true_2 by lia. now rewrite last_snoc.
  - intros a Ha. unfold read_cell. rewrite filter_app, filter_writes.
    rewrite bool_decide_eq_false_2 by lia. now rewrite app_nil_r.
  - intros H1 H2. apply NoDup_app. repeat split; assumption.
Qed.

(** ** The scheduler *)

Section Scheduler.

Variable api_is_symbolic_uint : Value -> M Value.
Variable api_log : Value -> Value -> M unit.
Variable api_stream_int : Value -> Value -> Value -> Value -> M unit.
Variable api_stream_float : Value -> Value -> Value -> Value -> M unit.
Variable api_stream_string : Value -> Value -> Value -> M unit.
Variable api_log_stream : Value -> M unit.
Variable find_test_cases : State -> list TestCase.
Variable explore : State -> list Path.
Variable exc_info_type : Exception -> string.
Variable format_exc : Exception -> string.

Local Abbreviation do_run_test' :=
  (do_run_test api_is_symbolic_uint api_log api_stream_int api_stream_float
     api_stream_string api_log_stream explore).
Local Abbreviation run_test' :=
  (run_test api_is_symbolic_uint api_log api_stream_int api_stream_float
     api_stream_string api_log_stream explore exc_info_type format_exc).
Local Abbreviation dispatch' :=
  (dispatch api_is_symbolic_uint api_log api_stream_int api_stream_float
     api_stream_string api_log_stream explore exc_info_type format_exc).
Local Abbreviation run_tests' :=
  (run_tests api_is_symbolic_uint api_log api_stream_int api_stream_float
     api_stream_string api_log_stream find_test_cases explore exc_info_type
     format_exc).

Lemma run_test_returns (state : State) (apis : gmap string Z)
    (test : TestCase) :
  snd (run_test' state apis test) = Returned tt.
Proof.
  unfold run_test. destruct (do_run_test' state apis test) as [evs [[]|e]];
    reflexivity.
Qed.

Lemma dispatch_results (state : State) (apis : gmap string Z)
    (tests : list TestCase) (done : list (list Event * Result unit)) :
  dispatch' state apis tests done
    = done ++ (run_test' state apis <$> tests).
Proof.
  revert done. induction tests as [|test tests IH]; intros done; simpl.
  - now rewrite app_nil_r.
  - rewrite IH, <- app_assoc. reflexivity.
Qed.

(** C4: [run_test] never raises: when [do_run_test] raises inside a
    worker, the events let out so far are kept and one error record with
    the exception is logged; a test that runs through keeps its events as
    they are.  The scheduler has a result for every test it dispatched, and
    the result of each test is the one its own worker gives, whatever
    happened to the others. *)
Theorem worker_failure_contained (args : Args) (state : State)
    (apis : gmap string Z) :
  let tests := find_test_cases state in
  let batch := run_tests' args state apis in
  (forall test, snd (run_test' state apis test) = Returned tt) /\
  (forall test evs e,
     do_run_test' state apis test = (evs, Raised e) ->
     run_test' state apis test
       = (evs ++ [LogRecord ERROR
                    ("Uncaught exception: " +:+ exc_info_type e +:+
                     String "010" (format_exc e))],
          Returned tt)) /\
  (forall test evs,
     do_run_test' state apis test = (evs, Returned tt) ->
     run_test' state apis test = (evs, Returned tt)) /\
  length (results batch) = length tests /\
  (forall i test,
     tests !! i = Some test ->
     results batch !! i = Some (run_test' state apis test)).
Proof.
  intros tests batch. repeat split.
  - intros test. apply run_test_returns.
  - intros test evs e H. unfold run_test. now rewrite H.
  - intros test evs H. unfold run_test. now rewrite H.
  - unfold batch, run_tests. cbn [results]. fold tests.
    rewrite dispatch_results. simpl. now rewrite length_fmap.
  - intros i test H. unfold batch, run_tests. cbn [results]. fold tests.
    rewrite dispatch_results. simpl. rewrite list_lookup_fmap, H.
    reflexivity.
Qed.

(** C2, as amended: once the scheduler has run every discovered test, each
    in a worker that returned, the exit status of the process is 0,
    whatever the outcomes of the tests. *)
Theorem run_tests_exit_status (args : Args) (state : State)
    (apis : gmap string Z) :
  let batch := run_tests' args state apis in
  exit_status batch = 0 /\
  length (results batch) = length (find_test_cases state) /\
  Forall (fun r => snd r = Returned tt) (results batch).
Proof.
  intros batch. split; [reflexivity|].
  unfold batch, run_tests. cbn [results]. rewrite dispatch_results. simpl.
  split; [now rewrite length_fmap|].
  apply Forall_fmap, Forall_forall. intros test _. apply run_test_returns.
Qed.

End Scheduler.

(** ** The example target, run *)

(** C1 fails as stated: a path that the engine ends with a reason of its
    own, which is not the harness's, gets an error record and no verdict. *)
Lemma done_test_unknown_reason_no_verdict :
  "Invalid memory access" <> OUR_TERMINATION_REASON /\
  done_test example_state 0 "Invalid memory access"
    = [LogRecord ERROR
         "State 0 terminated for unknown reason: Invalid memory access"] /\
  verdicts (done_test example_state 0 "Invalid memory access") = [].
Proof.
  split; [discriminate|]. split; reflexivity.
Qed.

Lemma done_test_unknown_reason_witness :
  contains OUR_TERMINATION_REASON "Invalid memory access" = false /\
  done_test example_state 0 "Invalid memory access"
    = [LogRecord ERROR
         "State 0 terminated for unknown reason: Invalid memory access"].
Proof.
  split; [reflexivity|].
  apply (done_test_unknown_reason [] example_state 0 "Invalid memory access").
  reflexivity.
Defined.

(** C2 fails as stated: in the example run the first test is reported with
    outcome Fail and the second ends for a reason that is not the
    harness's, and the exit status is 0. *)
Lemma exit_status_ignores_failures :
  verdict_outcome <$> verdicts (concat (fst <$> results example_batch))
    = [Fail; Pass] /\
  results example_batch !! 1%nat
    = Some ([LogRecord ERROR
               "State 0 terminated for unknown reason: Invalid memory access"],
            Returned tt) /\
  exit_status example_batch = 0.
Proof.
  vm_compute. repeat split.
Qed.

(** C5 fails as stated: the one-character string ["A"] is concrete, and
    [concretize] returns the integer 65 for it, which is not equal to it. *)
Lemma concretize_changes_concrete_str :
  is_concrete (VStr "A") = true /\
  concretize example_solutions (VStr "A") false example_state
    = (Returned (VInt 65), example_state) /\
  py_eq (VInt 65) (VStr "A") = py_bool false.
Proof.
  repeat split.
Qed.

Lemma concretize_min_least_witness :
  exists m : Z,
    fst (concretize_min example_solutions (BitVecVariable 8 "x") true
           example_state) = Returned (VInt m) /\
    admissible example_solutions example_state (BitVecVariable 8 "x")
      (VInt m) /\
    (forall c,
       admissible example_solutions example_state (BitVecVariable 8 "x") c ->
       exists z, c = VInt z /\ m <= z) /\
    (forall st', constraints st' = constraints example_state ->
       fst (concretize_min example_solutions (BitVecVariable 8 "x") true st')
         = Returned (VInt m)).
Proof.
  apply (concretize_min_least example_solutions (BitVecVariable 8 "x") true
           example_state).
  - reflexivity.
  - simpl. discriminate.
Defined.

Lemma concretize_many_bounded_witness :
  concretize_many example_solutions (BitVecVariable 8 "x") 0 example_state
    = (Raised AssertionError, example_state) /\
  concretize_many example_solutions (VStr "A") 2 example_state
    = (Returned [VStr "A"], example_state) /\
  concretize_many example_solutions (BitVecVariable 8 "x") 2 example_state
    = (Returned [VInt 66; VInt 65], example_state) /\
  exists l : list Value,
    concretize_many example_solutions (BitVecVariable 8 "x") 5 example_state
      = (Returned l, example_state) /\
    length l = 3%nat /\
    VInt 67 ∈ l.
Proof.
  split; [|split; [|split]].
  - apply (concretize_many_bounded example_solutions (BitVecVariable 8 "x") 0
             example_state). lia.
  - apply (concretize_many_bounded example_solutions (VStr "A") 2
             example_state); [lia|reflexivity].
  - destruct (concretize_many_bounded example_solutions
                (BitVecVariable 8 "x") 2 example_state) as (_ & _ & H).
    destruct H as (l & Hrun & Heval & _); [lia|reflexivity|].
    rewrite Hrun. vm_compute in Heval. injection Heval as <-. reflexivity.
  - destruct (concretize_many_bounded example_solutions
                (BitVecVariable 8 "x") 5 example_state) as (_ & _ & H).
    destruct H as (l & Hrun & Heval & _ & _ & _ & Hall); [lia|reflexivity|].
    exists l. split; [exact Hrun|].
    assert (Hlen : length l = 3%nat).
    { vm_compute in Heval. injection Heval as <-. reflexivity. }
    split; [exact Hlen|]. apply Hall.
    + rewrite Hlen. lia.
    + exists 67. split; [reflexivity|].
      solve [repeat first [apply list_elem_of_here|apply list_elem_of_further]].
Defined.

Lemma concretize_concrete_witness :
  is_concrete (VStr "AB") = true /\
  concretize_min example_solutions (VStr "AB") true example_state
    = (Returned (VStr "AB"), example_state) /\
  concretize example_solutions (VInt 7) true example_state
    = (Returned (VInt 7), example_state) /\
  concretize example_solutions (VStr "A") true example_state
    = (Returned (VInt 65), example_state).
Proof.
  split; [reflexivity|]. split; [|split].
  - apply (concretize_concrete example_solutions (VStr "AB") true
             example_state). reflexivity.
  - apply (concretize_concrete example_solutions (VInt 7) true
             example_state); reflexivity.
  - apply (proj2 (proj2 (concretize_concrete example_solutions (VStr "A")
                           true example_state eq_refl)) "A"%char).
    reflexivity.
Defined.

Lemma outcome_primitives_witness :
  (105 <> 103 /\ 105 <> 104 /\ 103 <> 104) /\
  verdict_outcome <$>
    verdicts (fst (run_path
                     [(103, hook hook_Pass); (104, hook hook_Fail);
                      (105, hook hook_SoftFail)]
                     done_test 0 [(105, []); (104, [])]
                     (Exits "program finished") example_state))
  = [Fail].
Proof.
  split; [repeat split; discriminate|].
  apply (outcome_primitives example_state 105 103 104 [] [] 0
           (Exits "program finished")); discriminate.
Defined.

Lemma add_constraint_symbolic_only_witness :
  issymbolic (BitVecVariable 8 "x") = true /\
  constraints
    (snd (hook hook_Assume
            (set_arguments [BitVecVariable 8 "x"] example_state)))
    = [BitVecVariable 8 "x"].
Proof.
  split; [reflexivity|].
  apply (add_constraint_symbolic_only (BitVecVariable 8 "x")
           (set_arguments [BitVecVariable 8 "x"] example_state)).
  reflexivity.
Defined.

Lemma make_symbolic_input_injects_witness :
  exists st' : State,
    make_symbolic_input 4096 4100 example_state
      = (Returned (input_symbol <$> seq 0 4), st') /\
    read_cell (memory st') 4098 = Some (BitVecVariable 8 "MCTEST_INPUT_2") /\
    NoDup (input_symbols st').
Proof.
  destruct (make_symbolic_input_injects 4096 4100 example_state)
    as (st' & Hrun & _ & _ & _ & _ & _ & _ & Hcell & _ & Hfresh).
  exists st'. split; [exact Hrun|]. split.
  - apply (Hcell 4098). lia.
  - apply Hfresh.
    + constructor.
    + intros v Hv. now apply elem_of_nil in Hv.
Defined.

Lemma worker_failure_contained_witness :
  results example_batch !! 2%nat
    = Some ([LogRecord ERROR
               ("Uncaught exception: <type 'exceptions.Exception'>" +:+
                String "010" "Traceback (most recent call last):")],
            Returned tt) /\
  results example_batch !! 3%nat
    = Some ([Report {| test_name := "Passes"; verdict_outcome := Pass;
                       log_lines := [] |}],
            Returned tt).
Proof.
  pose proof (worker_failure_contained
    (fun _ => ret (VInt 0)) (fun _ _ => ret tt) (fun _ _ _ _ => ret tt)
    (fun _ _ _ _ => ret tt) (fun _ _ _ => ret tt) (fun _ => ret tt)
    (fun _ => example_tests) example_explore
    example_exc_info_type example_format_exc
    {| num_workers := 1 |} example_state example_apis)
    as (_ & _ & _ & _ & Hres).
  unfold example_batch. split.
  - rewrite (Hres 2%nat {| name := "Faults"; ea := 3 |} eq_refl).
    vm_compute. reflexivity.
  - rewrite (Hres 3%nat {| name := "Passes"; ea := 4 |} eq_refl).
    vm_compute. reflexivity.
Defined.

(** * Further properties of the harness *)

(** ** What concretizing does to the state *)

Section ConcretizeEffects.

Variable solutions : list Value -> Value -> list Z.

Lemma constraints_appended_nil (st : State) : constraints_appended [] st st.
Proof.
  unfold constraints_appended. rewrite app_nil_r. now destruct st.
Qed.

Lemma solve_one_symbolic (val : Value) (st : State) (r : Result Value)
    (st' : State) :
  issymbolic val = true ->
  solve_one solutions val st = (r, st') ->
  st' = st /\
  (r = Raised SolverException /\ solutions (constraints st) val = [] \/
   exists z, r = Returned (VInt z) /\ z ∈ solutions (constraints st) val).
Proof.
  intros Hs. unfold solve_one. rewrite Hs.
  destruct (solutions (constraints st) val) as [|z l] eqn:E;
    intros H; injection H as <- <-; (split; [reflexivity|]).
  - now left.
  - right. exists z. split; [reflexivity|]. apply elem_of_cons. now left.
Qed.

Lemma concretize_symbolic (val : Value) (constrain_ : bool) (st : State) :
  issymbolic val = true ->
  concretize solutions val constrain_ st
  = match solutions (constraints st) val with
    | [] => (Raised SolverException, st)
    | z :: _ =>
        (Returned (VInt z),
         if constrain_ then add_to_constraints (Equal val (VInt z)) st
         else st)
    end.
Proof.
  intros Hs.
  assert (E : concretize solutions val constrain_ st
    = (assert (is_symbolic val) ;;;
       concrete_val <- solve_one solutions val ;;
       concrete_val <- match concrete_val with
                       | VStr s => ord_of_char s
                       | _ => ret concrete_val
                       end ;;
       (if constrain_ then add_constraint (py_eq val concrete_val)
        else ret true) ;;;
       ret concrete_val) st).
  { destruct val; try discriminate Hs; reflexivity. }
  rewrite E. unfold bind, assert, is_symbolic, solve_one. rewrite Hs. simpl.
  destruct (solutions (constraints st) val) as [|z l]; [reflexivity|].
  simpl. destruct constrain_; [|reflexivity].
  unfold add_constraint, bind, is_symbolic, py_eq. rewrite Hs. reflexivity.
Qed.

Lemma concretize_min_symbolic (val : Value) (constrain_ : bool) (st : State) :
  issymbolic val = true ->
  concretize_min solutions val constrain_ st
  = match solutions (constraints st) val with
    | [] => (Raised SolverException, st)
    | z :: l =>
        (Returned (VInt (minimum z l)),
         if constrain_
         then add_to_constraints (Equal val (VInt (minimum z l))) st
         else st)
    end.
Proof.
  intros Hs. unfold concretize_min, bind, solve_n.
  assert (Hint : isinstance_int val = false) by (destruct val; done).
  rewrite Hint, Hs.
  destruct (solutions (constraints st) val) as [|z l]; [reflexivity|].
  destruct constrain_; [|reflexivity].
  unfold add_constraint, bind, is_symbolic, py_eq. rewrite Hs. reflexivity.
Qed.

Lemma ord_of_char_run (s : string) (st : State) :
  (exists c, s = String c EmptyString /\
             ord_of_char s st = (Returned (VInt (ord c)), st)) \/
  (String.length s <> 1%nat /\ ord_of_char s st = (Raised AssertionError, st)).
Proof.
  destruct s as [|c [|c' s]].
  - right. split; [discriminate|reflexivity].
  - left. exists c. split; reflexivity.
  - right. split; [discriminate|reflexivity].
Qed.

(** X1: with [constrain] set, concretizing a symbolic value appends to the
    constraints of the path exactly the equation of the value with the
    integer returned, which the solver admits, and changes nothing else;
    [concretize_min] does the same with its result. *)
Theorem concretize_constrain_pins (val c : Value) (st st' : State) :
  issymbolic val = true ->
  (concretize solutions val true st = (Returned c, st') ->
     constraints_appended [Equal val c] st st' /\
     admissible solutions st val c) /\
  (concretize_min solutions val true st = (Returned c, st') ->
     constraints_appended [Equal val c] st st' /\
     admissible solutions st val c).
Proof.
  intros Hs. split.
  - rewrite (concretize_symbolic _ _ _ Hs).
    destruct (solutions (constraints st) val) as [|z l] eqn:E;
      [discriminate|].
    intros H. injection H as <- <-. split; [reflexivity|].
    unfold admissible. rewrite Hs, E. exists z.
    split; [reflexivity|apply elem_of_cons; now left].
  - rewrite (concretize_min_symbolic _ _ _ Hs).
    destruct (solutions (constraints st) val) as [|z l] eqn:E;
      [discriminate|].
    intros H. injection H as <- <-. split; [reflexivity|].
    unfold admissible. rewrite Hs, E. exists (minimum z l).
    split; [reflexivity|apply minimum_elem].
Qed.

(** X2: whatever the value and whether they return or raise,
    [concretize] and [concretize_min] leave the program counter, the
    registers, the memory, the declared symbols and the context of the path
    alone; they append at most one constraint, and none unless [constrain]
    is set; [concretize_many] leaves the whole state as it was. *)
Theorem concretize_frame (val : Value) (constrain_ : bool) (max_num : Z)
    (st : State) :
  (exists extra,
     constraints_appended extra st
       (snd (concretize solutions val constrain_ st)) /\
     (length extra <= 1)%nat /\ (constrain_ = false -> extra = [])) /\
  (exists extra,
     constraints_appended extra st
       (snd (concretize_min solutions val constrain_ st)) /\
     (length extra <= 1)%nat /\ (constrain_ = false -> extra = [])) /\
  snd (concretize_many solutions val max_num st) = st.
Proof.
  split; [|split].
  - destruct (issymbolic val) eqn:Hs.
    + rewrite (concretize_symbolic _ _ _ Hs).
      destruct (solutions (constraints st) val) as [|z l].
      * exists []. split; [apply constraints_appended_nil|]. split; [simpl; lia|done].
      * destruct constrain_.
        -- exists [Equal val (VInt z)]. split; [reflexivity|].
           split; [simpl; lia|discriminate].
        -- exists []. split; [apply constraints_appended_nil|]. split; [simpl; lia|done].
    + exists []. split; [|split; [simpl; lia|done]].
      destruct val as [n|s| | |]; try discriminate Hs.
      * apply constraints_appended_nil.
      * simpl. destruct (ord_of_char_run s st) as [(c & _ & ->)|[_ ->]];
          apply constraints_appended_nil.
  - destruct (issymbolic val) eqn:Hs.
    + rewrite (concretize_min_symbolic _ _ _ Hs).
      destruct (solutions (constraints st) val) as [|z l].
      * exists []. split; [apply constraints_appended_nil|]. split; [simpl; lia|done].
      * destruct constrain_.
        -- exists [Equal val (VInt (minimum z l))]. split; [reflexivity|].
           split; [simpl; lia|discriminate].
        -- exists []. split; [apply constraints_appended_nil|]. split; [simpl; lia|done].
    + exists []. split; [|split; [simpl; lia|done]].
      destruct val as [n|s| | |]; try discriminate Hs.
      * apply constraints_appended_nil.
      * unfold concretize_min, bind, solve_n. simpl.
        destruct constrain_; simpl; [|apply constraints_appended_nil].
        unfold add_constraint, bind, is_symbolic, py_eq. simpl.
        apply constraints_appended_nil.
  - unfold concretize_many, bind, assert.
    case_bool_decide; [|reflexivity]. simpl.
    destruct (isinstance_int val); [reflexivity|].
    unfold eval_upto. destruct (issymbolic val); reflexivity.
Qed.

(** X3: [concretize] accepts a string only when it is one character long:
    for the empty string and for any longer one the assertion fails, with
    the state of the path as it was. *)
Theorem concretize_str_length (s : string) (constrain_ : bool) (st : State) :
  String.length s <> 1%nat ->
  concretize solutions (VStr s) constrain_ st = (Raised AssertionError, st).
Proof.
  intros H. simpl.
  destruct (ord_of_char_run s st) as [(c & -> & _)|[_ E]]; [|exact E].
  now contradiction H.
Qed.

(** What [concretize] returns is an integer. *)
Lemma concretize_returns_int (val : Value) (constrain_ : bool)
    (st st' : State) (c : Value) :
  concretize solutions val constrain_ st = (Returned c, st') ->
  isinstance_int c = true.
Proof.
  destruct (issymbolic val) eqn:Hs.
  - rewrite (concretize_symbolic _ _ _ Hs).
    destruct (solutions (constraints st) val); [discriminate|].
    intros H. now injection H as <- _.
  - destruct val as [n|s| | |]; try discriminate Hs; simpl.
    + intros H. now injection H as <- _.
    + destruct (ord_of_char_run s st) as [(c' & _ & ->)|[_ ->]];
        [|discriminate].
      intros H. now injection H as <- _.
Qed.

End ConcretizeEffects.

(** ** Typed reads *)

Section ReadsProperties.

Variable solutions : list Value -> Value -> list Z.
Variable address_bit_size : Z.
Variable read_int : Z -> Z -> M Value.

Local Abbreviation read_uintptr_t' :=
  (read_uintptr_t solutions address_bit_size read_int).
Local Abbreviation read_uint64_t' := (read_uint64_t solutions read_int).
Local Abbreviation read_uint32_t' := (read_uint32_t solutions read_int).
Local Abbreviation read_uint8_t' := (read_uint8_t solutions read_int).

Ltac read_cases H :=
  unfold read_uintptr_t, read_uint64_t, read_uint32_t, read_uint8_t, bind,
    ret in H;
  repeat match type of H with
    | context [match ?m with _ => _ end] =>
        let E := fresh "E" in destruct m eqn:E; try discriminate H
    end.

(** X4: a typed read that returns hands back, next to the value, the
    address just behind what it read: 8, 4 and 1 bytes further for the
    fixed widths and [address_bit_size // 8] bytes for a pointer, whatever
    was read and whatever the flags; so a 32-bit read followed by a 64-bit
    read at the address it gave ends 12 bytes after the start. *)
Theorem read_next_address (ea : Z) (c1 k1 c2 k2 : bool) (st st' : State)
    (val : Value) (next_ea : Z) :
  (read_uintptr_t' ea c1 k1 st = (Returned (val, next_ea), st') ->
     next_ea = ea + address_bit_size `div` 8) /\
  (read_uint64_t' ea c1 k1 st = (Returned (val, next_ea), st') ->
     next_ea = ea + 8) /\
  (read_uint32_t' ea c1 k1 st = (Returned (val, next_ea), st') ->
     next_ea = ea + 4) /\
  (read_uint8_t' ea c1 k1 st = (Returned (val, next_ea), st') ->
     next_ea = ea + 1) /\
  ((p <- read_uint32_t' ea c1 k1 ;; read_uint64_t' (snd p) c2 k2) st
     = (Returned (val, next_ea), st') ->
     next_ea = ea + 12).
Proof.
  repeat split; intros H.
  - read_cases H; now injection H as _ <- _.
  - read_cases H; now injection H as _ <- _.
  - read_cases H; now injection H as _ <- _.
  - read_cases H; now injection H as _ <- _.
  - unfold bind at 1 in H.
    destruct (read_uint32_t' ea c1 k1 st) as [[[v n]|e] st1] eqn:E1;
      [|discriminate H].
    assert (n = ea + 4) as ->.
    { read_cases E1; now injection E1 as _ <- _. }
    simpl in H. read_cases H. injection H as _ <- _. lia.
Qed.

(** X5: [read_uint8_t] never hands back a string: a one-character string
    read from memory comes back as the code of its character, any other
    string fails the assertion; and with [concretize] set, what comes back
    is an integer. *)
Theorem read_uint8_t_no_str (ea : Z) (concretize_ constrain_ : bool)
    (st st' : State) (val : Value) (next_ea : Z) :
  read_uint8_t' ea concretize_ constrain_ st = (Returned (val, next_ea), st') ->
  isinstance_str val = false /\
  (concretize_ = true -> isinstance_int val = true) /\
  (forall s st1,
     concretize_ = false ->
     read_int ea 8 st = (Returned (VStr s), st1) ->
     exists c, s = String c EmptyString /\ val = VInt (ord c)).
Proof.
  intros H. unfold read_uint8_t, bind in H.
  destruct (read_int ea 8 st) as [[v0|e0] st0] eqn:E0; [|discriminate H].
  destruct concretize_.
  - destruct (concretize solutions v0 constrain_ st0) as [[v1|e1] st1] eqn:E1;
      [|discriminate H].
    pose proof (concretize_returns_int _ _ _ _ _ _ E1) as Hint.
    destruct v1; try discriminate Hint. simpl in H. injection H as <- _ _.
    repeat split; try reflexivity. intros s st2 Hc. discriminate Hc.
  - simpl in H. split; [|split; [discriminate|]].
    + destruct v0 as [n|s| | |]; simpl in H;
        try (injection H as <- _ _; reflexivity).
      destruct (ord_of_char_run s st0) as [(c & _ & Ec)|[_ Ec]];
        rewrite Ec in H; [|discriminate H].
      now injection H as <- _ _.
    + intros s st1 _ Hr. injection Hr as -> _. simpl in H.
      destruct (ord_of_char_run s st0) as [(c & -> & Ec)|[_ Ec]];
        rewrite Ec in H; [|discriminate H].
      injection H as <- _ _. now exists c.
Qed.

End ReadsProperties.

(** ** The input, the end of a path and the workers *)

(** X6: for an empty range, or one whose end lies before its beginning,
    [make_symbolic_input] returns the empty list and declares and writes
    nothing: the state is as it was. *)
Theorem make_symbolic_input_empty (input_begin_ea input_end_ea : Z)
    (st : State) :
  input_end_ea <= input_begin_ea ->
  make_symbolic_input input_begin_ea input_end_ea st = (Returned [], st).
Proof.
  intros H. unfold make_symbolic_input.
  replace (Z.to_nat (input_end_ea - input_begin_ea)) with 0%nat by lia.
  reflexivity.
Qed.

(** X7: [done_test] lets out one event for every termination; it is a
    verdict exactly when the reason can be cut into a part before, the
    harness's reason, and a part after; otherwise it is the error
    record. *)
Theorem done_test_reports_iff (st : State) (state_id : nat)
    (reason : string) :
  length (done_test st state_id reason) = 1%nat /\
  (verdicts (done_test st state_id reason) = [report st]
     <-> exists pre post,
           reason = pre +:+ OUR_TERMINATION_REASON +:+ post) /\
  (verdicts (done_test st state_id reason) = []
     <-> ~ exists pre post,
             reason = pre +:+ OUR_TERMINATION_REASON +:+ post).
Proof.
  unfold done_test.
  destruct (contains OUR_TERMINATION_REASON reason) eqn:E; simpl.
  - pose proof (contains_split _ _ E) as Hsplit.
    split; [reflexivity|]. split; split.
    + intros _. exact Hsplit.
    + reflexivity.
    + discriminate.
    + intros Hn. now contradiction Hn.
  - assert (Hn : ~ exists pre post,
                     reason = pre +:+ OUR_TERMINATION_REASON +:+ post).
    { intros (pre & post & ->). now rewrite contains_app in E. }
    split; [reflexivity|]. split; split.
    + discriminate.
    + intros Hs. now contradiction Hn.
    + intros _. exact Hn.
    + reflexivity.
Qed.

Section Workers.

Variable api_is_symbolic_uint : Value -> M Value.
Variable api_log : Value -> Value -> M unit.
Variable api_stream_int : Value -> Value -> Value -> Value -> M unit.
Variable api_stream_float : Value -> Value -> Value -> Value -> M unit.
Variable api_stream_string : Value -> Value -> Value -> M unit.
Variable api_log_stream : Value -> M unit.
Variable explore : State -> list Path.
Variable exc_info_type : Exception -> string.
Variable format_exc : Exception -> string.

Local Abbreviation hooked_primitives' :=
  (hooked_primitives api_is_symbolic_uint api_log api_stream_int
     api_stream_float api_stream_string api_log_stream).
Local Abbreviation do_run_test' :=
  (do_run_test api_is_symbolic_uint api_log api_stream_int api_stream_float
     api_stream_string api_log_stream explore).
Local Abbreviation run_test' :=
  (run_test api_is_symbolic_uint api_log api_stream_int api_stream_float
     api_stream_string api_log_stream explore exc_info_type format_exc).

Lemma getitem_present (apis : gmap string Z) (key : string) :
  is_Some (apis !! key) ->
  getitem apis key = Returned (default 0 (apis !! key)).
Proof.
  intros [a Ha]. unfold getitem. now rewrite Ha.
Qed.

Lemma getitem_missing (apis : gmap string Z) (key : string) :
  apis !! key = None -> getitem apis key = Raised (KeyError key).
Proof.
  intros H. unfold getitem. now rewrite H.
Qed.

Lemma add_hooks_missing (apis : gmap string Z) (todo : list (string * Model))
    (hooks : list (Z * M unit)) (pre post : list string) (key : string) :
  todo.*1 = pre ++ key :: post ->
  (forall k, k ∈ pre -> is_Some (apis !! k)) ->
  apis !! key = None ->
  add_hooks apis todo hooks = Raised (KeyError key).
Proof.
  revert todo hooks. induction pre as [|p pre IH]; intros todo hooks Ht Hp Hk.
  - destruct todo as [|[k f] todo]; [discriminate Ht|].
    simpl in Ht. injection Ht as -> _. simpl.
    now rewrite (getitem_missing _ _ Hk).
  - destruct todo as [|[k f] todo]; [discriminate Ht|].
    simpl in Ht. injection Ht as -> Ht. simpl.
    rewrite getitem_present by (apply Hp, elem_of_cons; now left).
    apply IH; [exact Ht| |exact Hk].
    intros k Hin. apply Hp, elem_of_cons. now right.
Qed.

Lemma add_hooks_present (apis : gmap string Z) (todo : list (string * Model))
    (hooks : list (Z * M unit)) :
  (forall k, k ∈ todo.*1 -> is_Some (apis !! k)) ->
  add_hooks apis todo hooks
  = Returned (hooks ++
      ((fun kf : string * Model =>
          (default 0 (apis !! fst kf), hook (snd kf))) <$> todo)).
Proof.
  revert hooks. induction todo as [|[k f] todo IH]; intros hooks Hp; simpl.
  - now rewrite app_nil_r.
  - rewrite getitem_present by (apply Hp, elem_of_cons; now left).
    rewrite IH.
    + now rewrite <- app_assoc.
    + intros k' Hin. apply Hp. simpl. apply elem_of_cons. now right.
Qed.

Lemma make_symbolic_input_returns (b e : Z) (st : State) :
  exists data st', make_symbolic_input b e st = (Returned data, st').
Proof.
  destruct (make_symbolic_input_injects b e st) as (st' & H & _).
  eauto.
Qed.

(** X8: when [apis] lacks one of the thirteen keys [do_run_test] looks up,
    the test ends before the engine runs: [do_run_test] raises [KeyError]
    for the first key that is missing, in the order of the lookups, with no
    event let out, and [run_test] turns this into one error record and no
    verdict. *)
Theorem do_run_test_missing_key (state : State) (apis : gmap string Z)
    (test : TestCase) (pre post : list string) (key : string) :
  required_keys = pre ++ key :: post ->
  (forall k, k ∈ pre -> is_Some (apis !! k)) ->
  apis !! key = None ->
  do_run_test' state apis test = ([], Raised (KeyError key)) /\
  run_test' state apis test
    = ([LogRecord ERROR
          ("Uncaught exception: " +:+ exc_info_type (KeyError key) +:+
           String "010" (format_exc (KeyError key)))],
       Returned tt).
Proof.
  intros Hkeys Hpre Hkey.
  assert (Hdo : do_run_test' state apis test = ([], Raised (KeyError key))).
  { unfold do_run_test. cbn [begin_test modify].
    destruct pre as [|p1 pre].
    { injection Hkeys as <- _. now rewrite (getitem_missing _ _ Hkey). }
    injection Hkeys as <- Hkeys.
    rewrite getitem_present by (apply Hpre, elem_of_cons; now left).
    destruct pre as [|p2 pre].
    { injection Hkeys as <- _. now rewrite (getitem_missing _ _ Hkey). }
    injection Hkeys as <- Hkeys.
    rewrite getitem_present
      by (apply Hpre, elem_of_cons; right; apply elem_of_cons; now left).
    match goal with
    | |- context [make_symbolic_input ?b ?e ?s] =>
        destruct (make_symbolic_input_returns b e s) as (data & st' & ->)
    end.
    rewrite (add_hooks_missing apis hooked_primitives' [] pre post key);
      [reflexivity|exact Hkeys| |exact Hkey].
    intros k Hin. apply Hpre. do 2 (apply elem_of_cons; right). exact Hin. }
  split; [exact Hdo|]. unfold run_test. now rewrite Hdo.
Qed.

(** X9: when [apis] has all thirteen keys, [do_run_test] hands the engine
    a state that starts at the entry of the test and holds one new symbol
    per byte of the range from [apis["InputBegin"]] to [apis["InputEnd"]],
    with no constraint added, and eleven hooks, bound to the addresses of
    the primitives in the order of the calls to [add_hook]; what the run
    lets out is what [do_run_test] lets out. *)
Theorem do_run_test_all_keys (state : State) (apis : gmap string Z)
    (test : TestCase) :
  (forall k, k ∈ required_keys -> is_Some (apis !! k)) ->
  let address k := default 0 (apis !! k) in
  let n := Z.to_nat (address "InputEnd" - address "InputBegin") in
  exists (hooks : list (Z * M unit)) (st0 : State),
    do_run_test' state apis test = run explore hooks done_test st0 /\
    hooks.*1 = address <$> hooked_primitives'.*1 /\
    length hooks = 11%nat /\
    PC st0 = ea test /\
    memory st0 = memory state ++
      ((fun i => (address "InputBegin" + Z.of_nat i, input_symbol i))
         <$> seq 0 n) /\
    input_symbols st0 = input_symbols state ++ (input_symbol <$> seq 0 n) /\
    constraints st0 = constraints state.
Proof.
  intros Hall address n.
  unfold do_run_test. cbn [begin_test modify].
  rewrite !getitem_present by (apply Hall; set_solver).
  fold (address "InputBegin") (address "InputEnd").
  unfold make_symbolic_input. fold n. rewrite inject_bytes_run.
  rewrite add_hooks_present.
  2:{ intros k Hk. apply Hall. unfold required_keys.
      do 2 (apply elem_of_cons; right). exact Hk. }
  eexists _, _. split; [reflexivity|]. repeat split.
Qed.

Lemma verdicts_app (evs1 evs2 : list Event) :
  verdicts (evs1 ++ evs2) = verdicts evs1 ++ verdicts evs2.
Proof. unfold verdicts. apply omap_app. Qed.

(** X10: [run_test] adds no verdict of its own: the verdicts it lets out
    are those of [do_run_test], so a test whose worker fails before any
    path was reported gets the error record and no verdict at all. *)
Theorem run_test_adds_no_verdict (state : State) (apis : gmap string Z)
    (test : TestCase) :
  verdicts (fst (run_test' state apis test))
    = verdicts (fst (do_run_test' state apis test)) /\
  (forall e, do_run_test' state apis test = ([], Raised e) ->
     verdicts (fst (run_test' state apis test)) = [] /\
     length (fst (run_test' state apis test)) = 1%nat).
Proof.
  unfold run_test.
  destruct (do_run_test' state apis test) as [evs [[]|e]] eqn:E; cbn [fst].
  - split; [reflexivity|]. intros e H. discriminate H.
  - split.
    + rewrite verdicts_app. simpl. now rewrite app_nil_r.
    + intros e' H. injection H as -> _. split; reflexivity.
Qed.

End Workers.

(** ** The further properties on the example target *)

Lemma concretize_constrain_pins_witness :
  constraints_appended [Equal (BitVecVariable 8 "x") (VInt 66)]
    example_state
    (snd (concretize example_solutions (BitVecVariable 8 "x") true
            example_state)) /\
  admissible example_solutions example_state (BitVecVariable 8 "x")
    (VInt 66).
Proof.
  apply (proj1 (concretize_constrain_pins example_solutions
                  (BitVecVariable 8 "x") (VInt 66) example_state
                  (snd (concretize example_solutions (BitVecVariable 8 "x")
                          true example_state)) eq_refl)).
  reflexivity.
Defined.

Lemma concretize_str_length_witness :
  String.length "AB" <> 1%nat /\
  concretize example_solutions (VStr "AB") true example_state
    = (Raised AssertionError, example_state).
Proof.
  split; [discriminate|].
  apply (concretize_str_length example_solutions "AB" true example_state).
  discriminate.
Defined.

Lemma read_next_address_witness :
  read_uint32_t example_solutions example_read_int 4096 true false
    example_state = (Returned (VInt 0, 4100), example_state) /\
  4100 = 4096 + 4.
Proof.
  split; [reflexivity|].
  apply (read_next_address example_solutions 64 example_read_int 4096
           true false true false example_state example_state (VInt 0) 4100).
  reflexivity.
Defined.

(** An engine read that gives the string ["A"] everywhere. *)
Lemma read_uint8_t_no_str_witness :
  read_uint8_t example_solutions (fun _ _ => ret (VStr "A")) 4096 false false
    example_state = (Returned (VInt 65, 4097), example_state) /\
  isinstance_str (VInt 65) = false.
Proof.
  split; [reflexivity|].
  apply (read_uint8_t_no_str example_solutions (fun _ _ => ret (VStr "A"))
           4096 false false example_state example_state (VInt 65) 4097).
  reflexivity.
Defined.

Lemma make_symbolic_input_empty_witness :
  4096 <= 4100 /\
  make_symbolic_input 4100 4096 example_state = (Returned [], example_state).
Proof.
  split; [lia|].
  apply (make_symbolic_input_empty 4100 4096 example_state). lia.
Defined.

Lemma do_run_test_missing_key_witness :
  delete "Fail" example_apis !! "Fail" = None /\
  fst (run_test (fun _ => ret (VInt 0)) (fun _ _ => ret tt)
         (fun _ _ _ _ => ret tt) (fun _ _ _ _ => ret tt)
         (fun _ _ _ => ret tt) (fun _ => ret tt) example_explore
         example_exc_info_type example_format_exc
         example_state (delete "Fail" example_apis)
         {| name := "Fails"; ea := 1 |})
  = [LogRecord ERROR
       ("Uncaught exception: <type 'exceptions.KeyError'>" +:+
        String "010" "Traceback (most recent call last):")].
Proof.
  split; [reflexivity|].
  pose proof (do_run_test_missing_key
    (fun _ => ret (VInt 0)) (fun _ _ => ret tt) (fun _ _ _ _ => ret tt)
    (fun _ _ _ _ => ret tt) (fun _ _ _ => ret tt) (fun _ => ret tt)
    example_explore example_exc_info_type example_format_exc
    example_state (delete "Fail" example_apis)
    {| name := "Fails"; ea := 1 |}
    ["InputBegin"; "InputEnd"; "IsSymbolicUInt"; "Assume"; "Pass"]
    ["SoftFail"; "Abandon"; "Log"; "StreamInt"; "StreamFloat";
     "StreamString"; "LogStream"]
    "Fail" eq_refl) as H.
  destruct H as [_ H].
  - intros k Hk. vm_compute.
    repeat (apply elem_of_cons in Hk as [->|Hk]; [eexists; reflexivity|]).
    now apply elem_of_nil in Hk.
  - reflexivity.
  - rewrite H. reflexivity.
Defined.

Lemma do_run_test_all_keys_witness :
  exists (hooks : list (Z * M unit)) (st0 : State),
    do_run_test (fun _ => ret (VInt 0)) (fun _ _ => ret tt)
      (fun _ _ _ _ => ret tt) (fun _ _ _ _ => ret tt)
      (fun _ _ _ => ret tt) (fun _ => ret tt) example_explore
      example_state example_apis {| name := "Fails"; ea := 1 |}
    = run example_explore hooks done_test st0 /\
    hooks.*1 = [101; 102; 103; 104; 105; 106; 107; 108; 109; 110; 111] /\
    PC st0 = 1 /\
    length (memory st0) = 4%nat.
Proof.
  destruct (do_run_test_all_keys
    (fun _ => ret (VInt 0)) (fun _ _ => ret tt) (fun _ _ _ _ => ret tt)
    (fun _ _ _ _ => ret tt) (fun _ _ _ => ret tt) (fun _ => ret tt)
    example_explore example_state example_apis
    {| name := "Fails"; ea := 1 |})
    as (hooks & st0 & Hrun & Hhooks & _ & Hpc & Hmem & _).
  - intros k Hk. unfold required_keys in Hk.
    repeat (apply elem_of_cons in Hk as [->|Hk]; [eexists; reflexivity|]).
    now apply elem_of_nil in Hk.
  - exists hooks, st0. split; [exact Hrun|]. split; [exact Hhooks|].
    split; [exact Hpc|]. rewrite Hmem. reflexivity.
Defined.

(** * Properties of the Honggfuzz front end *)

Module HonggfuzzFacts.
Import Honggfuzz.

(** ** Splitting and stripping *)

Lemma split_nonempty (sep : ascii) (s : string) : split sep s <> [].
Proof.
  destruct s as [|c s]; simpl; [discriminate|].
  case_bool_decide; [discriminate|].
  destruct (split sep s); discriminate.
Qed.

Lemma join_cons (sep piece : string) (rest : list string) :
  rest <> [] -> join sep (piece :: rest) = piece +:+ sep +:+ join sep rest.
Proof.
  destruct rest; [done|reflexivity].
Qed.

Lemma join_push (sep : string) (c : ascii) (piece : string)
    (rest : list string) :
  join sep (String c piece :: rest) = String c (join sep (piece :: rest)).
Proof.
  destruct rest; reflexivity.
Qed.

Lemma join_split (sep : ascii) (s : string) :
  join (String sep EmptyString) (split sep s) = s.
Proof.
  induction s as [|c s IH]; [reflexivity|].
  cbn [split]. case_bool_decide as Hc.
  - rewrite join_cons by apply split_nonempty.
    rewrite IH, app_empty, app_cons, app_empty. now subst.
  - destruct (split sep s) as [|piece rest] eqn:E.
    + now apply split_nonempty in E.
    + rewrite join_push. now rewrite IH.
Qed.

Lemma split_length (sep : ascii) (s : string) :
  length (split sep s) = S (count_char sep s).
Proof.
  induction s as [|c s IH]; [reflexivity|].
  cbn [split count_char]. case_bool_decide.
  - simpl. now rewrite IH.
  - destruct (split sep s) as [|piece rest] eqn:E.
    + now apply split_nonempty in E.
    + simpl in *. exact IH.
Qed.

Lemma split_no_sep (sep : ascii) (s : string) :
  Forall (fun piece => count_char sep piece = 0%nat) (split sep s).
Proof.
  induction s as [|c s IH]; cbn [split].
  - repeat constructor.
  - case_bool_decide as Hc.
    + constructor; [reflexivity|exact IH].
    + destruct (split sep s) as [|piece rest] eqn:E.
      * now apply split_nonempty in E.
      * inversion IH as [|? ? Hp Hr]; subst. constructor; [|exact Hr].
        cbn [count_char]. rewrite bool_decide_eq_false_2 by exact Hc.
        exact Hp.
Qed.

Lemma contains_char (c : ascii) (s : string) :
  contains (String c EmptyString) s = false <-> count_char c s = 0%nat.
Proof.
  induction s as [|c' s IH]; cbn [contains count_char].
  - split; reflexivity.
  - simpl. destruct (ascii_dec c c') as [->|Hne].
    + rewrite bool_decide_eq_true_2 by reflexivity.
      destruct s; simpl; split; discriminate.
    + rewrite bool_decide_eq_false_2 by congruence.
      simpl. exact IH.
Qed.

Lemma lstrip_count (c : ascii) (s : string) :
  (count_char c (lstrip s) <= count_char c s)%nat.
Proof.
  induction s as [|c' s IH]; [reflexivity|].
  cbn [lstrip]. destruct (isspace c'); [|reflexivity].
  cbn [count_char]. lia.
Qed.

Lemma rstrip_count (c : ascii) (s : string) :
  (count_char c (rstrip s) <= count_char c s)%nat.
Proof.
  induction s as [|c' s IH]; [reflexivity|].
  cbn [rstrip]. destruct (rstrip s) as [|c'' r] eqn:E.
  - destruct (isspace c'); cbn [count_char] in *; lia.
  - cbn [count_char] in *. lia.
Qed.

Lemma lstrip_head (s : string) :
  lstrip s = EmptyString \/
  exists c r, lstrip s = String c r /\ isspace c = false.
Proof.
  induction s as [|c s IH]; [now left|].
  cbn [lstrip]. destruct (isspace c) eqn:E; [exact IH|].
  right. now exists c, s.
Qed.

Lemma rstrip_idem (s : string) : rstrip (rstrip s) = rstrip s.
Proof.
  induction s as [|c s IH]; [reflexivity|].
  cbn [rstrip]. destruct (rstrip s) as [|c' r] eqn:E.
  - destruct (isspace c) eqn:Ec; [reflexivity|].
    cbn [rstrip]. now rewrite Ec.
  - cbn [rstrip]. cbn [rstrip] in IH. rewrite IH. reflexivity.
Qed.

Lemma rstrip_head (c : ascii) (s : string) :
  isspace c = false -> exists r, rstrip (String c s) = String c r.
Proof.
  intros Hc. cbn [rstrip]. destruct (rstrip s) as [|c' r].
  - rewrite Hc. now exists EmptyString.
  - now exists (String c' r).
Qed.

Lemma strip_idem (s : string) : strip (strip s) = strip s.
Proof.
  unfold strip. destruct (lstrip_head s) as [->|(c & r & -> & Hc)].
  - reflexivity.
  - destruct (rstrip_head c r Hc) as [r' E]. rewrite E.
    cbn [lstrip]. rewrite Hc, <- E. apply rstrip_idem.
Qed.

Lemma strip_count (c : ascii) (s : string) :
  (count_char c (strip s) <= count_char c s)%nat.
Proof.
  unfold strip. pose proof (rstrip_count c (lstrip s)).
  pose proof (lstrip_count c s). lia.
Qed.


Lemma field_value (l v : string) :
  field l = inr v -> contains ":" v = false /\ strip v = v.
Proof.
  unfold field. pose proof (split_no_sep ":" l) as Hsep.
  destruct (split ":" l) as [|p0 [|p1 rest]]; try discriminate.
  intros H. injection H as <-. split.
  - apply contains_char.
    inversion Hsep as [|? ? _ Hr]; subst.
    inversion Hr as [|? ? Hp _]; subst.
    pose proof (strip_count ":" p1). lia.
  - apply strip_idem.
Qed.

(** ** [compile] *)

(** X11: [compile] always puts the library flag first, [-ldeepstate] when
    the Honggfuzz library is not installed and [-ldeepstate_HFUZZ] when it
    is, and names the output after the test with [.hfuzz].  Compiler
    arguments that are given follow, cut at every single space: there is
    one flag more than there are spaces (two spaces in a row give an empty
    flag), no flag has a space in it, and the flags joined by spaces are
    the arguments again. *)
Theorem compile_flags (self : Frontend) (isfile : bool) :
  exists user : list string,
    compile self isfile
      = ("/usr/local/lib/libdeepstate_HFUZZ.a",
         (if isfile then "-ldeepstate_HFUZZ" else "-ldeepstate") :: user,
         out_test_name self +:+ ".hfuzz") /\
    (given (compiler_args self) = false -> user = []) /\
    (forall args,
       compiler_args self = Some args -> args <> EmptyString ->
       join " " user = args /\
       length user = S (count_char " " args) /\
       Forall (fun flag => contains " " flag = false) user).
Proof.
  unfold compile. destruct (compiler_args self) as [[|c args]|] eqn:E.
  - exists []. destruct isfile; (split; [reflexivity|]; split; [done|]);
      intros args H; injection H as <-; done.
  - exists (split " " (String c args)).
    destruct isfile; (split; [reflexivity|]; split; [discriminate|]);
      intros args' H _; injection H as <-;
      (split; [apply join_split|]; split; [apply split_length|]);
      (eapply Forall_impl; [apply split_no_sep|]);
      intros flag Hf; now apply contains_char.
  - exists []. destruct isfile; (split; [reflexivity|]; split; [done|]);
      intros args H; discriminate H.
Qed.

(** ** Dictionaries *)

Lemma dict_set_keys_in {V} (k : string) (v : V) (d : dict V) :
  k ∈ d.*1 -> (dict_set k v d).*1 = d.*1.
Proof.
  induction d as [|[k' v'] d IH]; simpl; intros H.
  - now apply elem_of_nil in H.
  - case_bool_decide as Hk; simpl; [now subst|].
    f_equal. apply IH. apply elem_of_cons in H as [H|H]; [congruence|done].
Qed.

Lemma dict_set_keys_notin {V} (k : string) (v : V) (d : dict V) :
  k ∉ d.*1 -> dict_set k v d = d ++ [(k, v)].
Proof.
  induction d as [|[k' v'] d IH]; simpl; intros H; [reflexivity|].
  rewrite bool_decide_eq_false_2.
  - f_equal. apply IH. intros Hin. apply H, elem_of_cons. now right.
  - intros ->. apply H, elem_of_cons. now left.
Qed.

Lemma dict_get_set_eq {V} (k : string) (v : V) (d : dict V) :
  dict_get k (dict_set k v d) = inr v.
Proof.
  induction d as [|[k' v'] d IH]; simpl.
  - now rewrite bool_decide_eq_true_2.
  - case_bool_decide as Hk; simpl.
    + now rewrite bool_decide_eq_true_2.
    + now rewrite bool_decide_eq_false_2.
Qed.

Lemma dict_get_set_ne {V} (k k' : string) (v : V) (d : dict V) :
  k <> k' -> dict_get k (dict_set k' v d) = dict_get k d.
Proof.
  intros Hne. induction d as [|[k0 v0] d IH]; simpl.
  - now rewrite bool_decide_eq_false_2 by congruence.
  - case_bool_decide as Hk; simpl.
    + subst k0. now rewrite !bool_decide_eq_false_2 by congruence.
    + case_bool_decide; [reflexivity|exact IH].
Qed.

Lemma dict_get_in {V} (k : string) (d : dict V) :
  k ∈ d.*1 -> exists v, dict_get k d = inr v.
Proof.
  induction d as [|[k' v'] d IH]; simpl; intros H.
  - now apply elem_of_nil in H.
  - case_bool_decide as Hk; [now exists v'|].
    apply IH. apply elem_of_cons in H as [H|H]; [congruence|done].
Qed.

Lemma dict_get_all_none (k : string) (d : dict (option string))
    (x : option string) :
  Forall (fun kv => snd kv = None) d -> dict_get k d = inr x -> x = None.
Proof.
  induction d as [|[k' v'] d IH]; simpl; intros Hall H; [discriminate H|].
  inversion Hall as [|? ? Hv Hd]; subst. simpl in Hv. subst v'.
  case_bool_decide; [now injection H as <-|now apply IH].
Qed.

(** ** The loops of [stats] *)

Lemma scan_keys_keys (l : string) (keys : list string)
    (d d' : dict (option string)) :
  (forall k, k ∈ keys -> k ∈ d.*1) ->
  scan_keys l keys d = inr d' -> d'.*1 = d.*1.
Proof.
  revert d. induction keys as [|k keys IH]; simpl; intros d Hin H.
  - now injection H as <-.
  - assert (Hk : k ∈ d.*1) by (apply Hin, elem_of_cons; now left).
    assert (Hrest : forall k', k' ∈ keys -> k' ∈ d.*1).
    { intros k' Hk'. apply Hin, elem_of_cons. now right. }
    destruct (contains k l); [|now apply IH].
    destruct (field l) as [e|v]; [discriminate H|].
    apply IH in H.
    + now rewrite H, dict_set_keys_in.
    + intros k' Hk'. rewrite dict_set_keys_in by exact Hk. now apply Hrest.
Qed.

Lemma scan_lines_keys (lines : list string) (d d' : dict (option string)) :
  scan_lines lines d = inr d' -> d'.*1 = d.*1.
Proof.
  revert d. induction lines as [|l lines IH]; simpl; intros d H.
  - now injection H as <-.
  - destruct (scan_keys l d.*1 d) as [e|d1] eqn:E; [discriminate H|].
    apply scan_keys_keys in E; [|done]. apply IH in H. congruence.
Qed.

Lemma scan_keys_get (l : string) (keys : list string)
    (d d' : dict (option string)) (k : string) :
  scan_keys l keys d = inr d' ->
  (contains k l = false -> dict_get k d' = dict_get k d) /\
  (contains k l = true -> k ∈ keys ->
     exists v, field l = inr v /\ dict_get k d' = inr (Some v)) /\
  (contains k l = true -> k ∉ keys -> dict_get k d' = dict_get k d).
Proof.
  revert d. induction keys as [|k0 keys IH]; simpl; intros d H.
  - injection H as <-. repeat split; try reflexivity.
    intros _ Hin. now apply elem_of_nil in Hin.
  - destruct (contains k0 l) eqn:E0.
    + destruct (field l) as [e|v] eqn:Ef; [discriminate H|].
      destruct (IH _ H) as (H1 & H2 & H3). repeat split.
      * intros Hk. rewrite H1 by exact Hk.
        apply dict_get_set_ne. intros ->. congruence.
      * intros Hk Hin. destruct (decide (k ∈ keys)) as [Hin'|Hnin].
        -- apply H2; assumption.
        -- exists v. split; [reflexivity|]. rewrite H3 by assumption.
           apply elem_of_cons in Hin as [->|Hin]; [|done].
           apply dict_get_set_eq.
      * intros Hk Hnin. rewrite H3.
        -- apply dict_get_set_ne. intros ->. apply Hnin, elem_of_cons.
           now left.
        -- exact Hk.
        -- intros Hin. apply Hnin, elem_of_cons. now right.
    + destruct (IH _ H) as (H1 & H2 & H3). repeat split.
      * exact H1.
      * intros Hk Hin. apply H2; [exact Hk|].
        apply elem_of_cons in Hin as [->|Hin]; [congruence|exact Hin].
      * intros Hk Hnin. apply H3; [exact Hk|].
        intros Hin. apply Hnin, elem_of_cons. now right.
Qed.



Lemma scan_lines_app (lines1 lines2 : list string)
    (d d' : dict (option string)) :
  scan_lines (lines1 ++ lines2) d = inr d' ->
  exists d1, scan_lines lines1 d = inr d1 /\ scan_lines lines2 d1 = inr d'.
Proof.
  revert d. induction lines1 as [|l lines1 IH]; simpl; intros d H.
  - now exists d.
  - destruct (scan_keys l d.*1 d) as [e|d0]; [discriminate H|].
    now apply IH.
Qed.

Lemma scan_lines_untouched (lines : list string)
    (d d' : dict (option string)) (k : string) :
  (forall l, l ∈ lines -> contains k l = false) ->
  scan_lines lines d = inr d' -> dict_get k d' = dict_get k d.
Proof.
  revert d. induction lines as [|l lines IH]; simpl; intros d Hno H.
  - now injection H as <-.
  - destruct (scan_keys l d.*1 d) as [e|d1] eqn:E; [discriminate H|].
    rewrite (IH d1).
    + apply (proj1 (scan_keys_get _ _ _ _ k E)).
      apply Hno, elem_of_cons. now left.
    + intros l' Hl'. apply Hno, elem_of_cons. now right.
    + exact H.
Qed.

Lemma scan_keys_from_lines (all : list string) (l : string)
    (keys : list string) (d d' : dict (option string)) :
  l ∈ all -> from_lines all d ->
  scan_keys l keys d = inr d' -> from_lines all d'.
Proof.
  intros Hl. revert d. induction keys as [|k0 keys IH]; simpl; intros d Hd H.
  - now injection H as <-.
  - destruct (contains k0 l) eqn:E0; [|now apply (IH d)].
    destruct (field l) as [e|v0] eqn:Ef; [discriminate H|].
    apply (IH _) in H; [exact H|].
    intros k v Hget. destruct (decide (k = k0)) as [->|Hne].
    + rewrite dict_get_set_eq in Hget. injection Hget as <-. now exists l.
    + rewrite dict_get_set_ne in Hget by exact Hne. now apply Hd.
Qed.

Lemma scan_lines_from_lines (all lines : list string)
    (d d' : dict (option string)) :
  (forall l, l ∈ lines -> l ∈ all) -> from_lines all d ->
  scan_lines lines d = inr d' -> from_lines all d'.
Proof.
  revert d. induction lines as [|l lines IH]; simpl; intros d Hsub Hd H.
  - now injection H as <-.
  - destruct (scan_keys l d.*1 d) as [e|d1] eqn:E; [discriminate H|].
    apply (IH d1).
    + intros l' Hl'. apply Hsub, elem_of_cons. now right.
    + eapply scan_keys_from_lines; [|exact Hd|exact E].
      apply Hsub, elem_of_cons. now left.
    + exact H.
Qed.

Lemma initial_stats_none : Forall (fun kv => snd kv = None) initial_stats.
Proof. repeat constructor. Qed.

Lemma crashes_not_initial : "CRASHES" ∉ initial_stats.*1.
Proof.
  intros H. vm_compute in H.
  repeat (apply elem_of_cons in H as [H|H]; [discriminate H|]).
  now apply elem_of_nil in H.
Qed.

(** ** [stats] and [reporter] *)

Lemma stats_returned (lines listing : list string)
    (d : dict (option string)) :
  stats lines listing = inr d ->
  exists d0,
    scan_lines (parseable lines) initial_stats = inr d0 /\
    d0.*1 = initial_stats.*1 /\
    d = d0 ++ [("CRASHES",
                Some (str_of_nat
                        (length (filter (fun name => name <> report_file)
                                   listing))))].
Proof.
  unfold stats.
  destruct (scan_lines (parseable lines) initial_stats) as [e|d0] eqn:E;
    [discriminate|].
  intros H. injection H as <-. exists d0.
  pose proof (scan_lines_keys _ _ _ E) as Hkeys.
  split; [reflexivity|]. split; [exact Hkeys|].
  apply dict_set_keys_notin. rewrite Hkeys. apply crashes_not_initial.
Qed.

Lemma stats_raised (lines listing : list string) (e : Error) :
  stats lines listing = inl e <->
  scan_lines (parseable lines) initial_stats = inl e.
Proof.
  unfold stats.
  destruct (scan_lines (parseable lines) initial_stats) as [e'|d0].
  - split; intros H; injection H as <-; reflexivity.
  - split; discriminate.
Qed.

Lemma dict_get_snoc_ne {V} (k k' : string) (v : V) (d : dict V) :
  k <> k' -> dict_get k (d ++ [(k', v)]) = dict_get k d.
Proof.
  intros Hne. induction d as [|[k0 v0] d IH]; simpl.
  - now rewrite bool_decide_eq_false_2 by congruence.
  - case_bool_decide; [reflexivity|exact IH].
Qed.

Lemma dict_get_snoc_new {V} (k : string) (v : V) (d : dict V) :
  k ∉ d.*1 -> dict_get k (d ++ [(k, v)]) = inr v.
Proof.
  induction d as [|[k0 v0] d IH]; simpl; intros H.
  - now rewrite bool_decide_eq_true_2.
  - rewrite bool_decide_eq_false_2.
    + apply IH. intros Hin. apply H, elem_of_cons. now right.
    + intros ->. apply H, elem_of_cons. now left.
Qed.

(** X12: whatever the report says, the dictionary [stats] returns has the
    seventeen keys of the report in their order and then ["CRASHES"]; no
    key is added or lost.  ["CRASHES"] holds, in decimal, the number of
    entries of the output directory other than the report file. *)
Theorem stats_keys (lines listing : list string) (d : dict (option string)) :
  stats lines listing = inr d ->
  d.*1 = initial_stats.*1 ++ ["CRASHES"] /\
  length d = 18%nat /\
  dict_get "CRASHES" d
    = inr (Some (str_of_nat
                   (length (filter (fun name => name <> report_file)
                              listing)))).
Proof.
  intros H. apply stats_returned in H as (d0 & _ & Hkeys & ->).
  split; [|split].
  - now rewrite fmap_app, Hkeys.
  - rewrite length_app. apply (f_equal length) in Hkeys.
    rewrite !length_fmap in Hkeys. rewrite Hkeys. reflexivity.
  - apply dict_get_snoc_new. rewrite Hkeys. apply crashes_not_initial.
Qed.

(** X13: the first four and the last five lines of the report are never
    read, so a report of nine lines or fewer gives no value: every key of
    the report stays [None], and only ["CRASHES"] is filled in. *)
Theorem stats_short_report (lines listing : list string) :
  (length lines <= 9)%nat ->
  stats lines listing
    = inr (initial_stats ++
           [("CRASHES",
             Some (str_of_nat
                     (length (filter (fun name => name <> report_file)
                                listing))))]).
Proof.
  intros H. unfold stats.
  assert (E : parseable lines = []).
  { unfold parseable. rewrite length_drop.
    replace (length lines - 4 - 5)%nat with 0%nat by lia. reflexivity. }
  rewrite E. reflexivity.
Qed.





(** X15: when several lines have a key in them, the last one counts: the
    value of the key is what stands between the first and the second colon
    of the last line read that has the key, without the white space around
    it. *)
Theorem stats_last_line (lines listing pre post : list string)
    (l k : string) (d : dict (option string)) :
  parseable lines = pre ++ l :: post ->
  k ∈ initial_stats.*1 ->
  contains k l = true ->
  (forall l', l' ∈ post -> contains k l' = false) ->
  stats lines listing = inr d ->
  exists before piece rest,
    split ":" l = before :: piece :: rest /\
    dict_get k d = inr (Some (strip piece)).
Proof.
  intros Hlines Hk Hl Hpost H.
  apply stats_returned in H as (d0 & Hscan & Hkeys & ->).
  rewrite Hlines in Hscan.
  apply scan_lines_app in Hscan as (d1 & Hpre & Hrest).
  simpl in Hrest.
  destruct (scan_keys l d1.*1 d1) as [e|d2] eqn:E; [discriminate Hrest|].
  pose proof (scan_lines_keys _ _ _ Hpre) as Hkeys1.
  destruct (scan_keys_get _ _ _ _ k E) as (_ & Hhit & _).
  destruct Hhit as (v & Hf & Hget); [exact Hl|now rewrite Hkeys1|].
  unfold field in Hf.
  destruct (split ":" l) as [|before [|piece rest]]; try discriminate Hf.
  injection Hf as <-. exists before, piece, rest.
  split; [reflexivity|].
  rewrite dict_get_snoc_ne.
  - now rewrite (scan_lines_untouched _ _ _ k Hpost Hrest).
  - intros ->. now apply crashes_not_initial.
Qed.

(** X16: every value [stats] gives for a key of the report was read from
    a line that has the key in it; it has no colon in it and no white space
    at its ends.  A key that no line read has in it stays [None]. *)
Theorem stats_values (lines listing : list string)
    (d : dict (option string)) (k : string) :
  stats lines listing = inr d ->
  k <> "CRASHES" ->
  (forall v, dict_get k d = inr (Some v) ->
     (exists l, l ∈ parseable lines /\ contains k l = true /\
                field l = inr v) /\
     contains ":" v = false /\ strip v = v) /\
  (k ∈ initial_stats.*1 ->
   (forall l, l ∈ parseable lines -> contains k l = false) ->
   dict_get k d = inr None).
Proof.
  intros H Hk. apply stats_returned in H as (d0 & Hscan & Hkeys & ->).
  rewrite dict_get_snoc_ne by exact Hk. split.
  - intros v Hget.
    assert (Hfrom : from_lines (parseable lines) d0).
    { eapply scan_lines_from_lines; [|..|exact Hscan]; [done|].
      intros k' v' Hg.
      now apply (dict_get_all_none _ _ _ initial_stats_none) in Hg. }
    destruct (Hfrom k v Hget) as (l & Hl & Hc & Hf).
    split; [now exists l|]. now apply field_value in Hf.
  - intros Hin Hno.
    rewrite (scan_lines_untouched _ _ _ k Hno Hscan).
    destruct (dict_get_in k initial_stats Hin) as [x Hx].
    rewrite Hx. f_equal.
    now apply (dict_get_all_none _ _ _ initial_stats_none) in Hx.
Qed.


(** ** [pre_exec] *)

Lemma mkdir_returned (dir entry : string) (entries entries' : Listing) :
  mkdir dir entry entries = inr entries' <->
  (entry ∉ entries.*1) /\ entries' = entries ++ [(entry, true)].
Proof.
  unfold mkdir. case_bool_decide as H.
  - split; [discriminate|]. now intros [Hn _].
  - split.
    + intros E. now injection E as <-.
    + now intros [_ ->].
Qed.

Lemma isdir_app (entries more : Listing) (entry : string) :
  isdir (entries ++ more) entry
    = (isdir entries entry || isdir more entry).
Proof.
  unfold isdir. apply eq_true_iff_eq.
  rewrite orb_true_iff, !bool_decide_eq_true. apply elem_of_app.
Qed.

(** X18: when [pre_exec] returns, the output directory holds both
    [sync_dir] and [crashes] as directories, whichever way it went, and
    nothing that was there is gone; [push_dir] and [pull_dir] are the same
    path, [sync_dir] in the output directory, and [crash_dir] is
    [crashes] there. *)
Theorem pre_exec_directories (self : Frontend) (entries : Listing)
    (r : Prepared) :
  pre_exec self entries = inr r ->
  isdir (entries_after r) "sync_dir" = true /\
  isdir (entries_after r) "crashes" = true /\
  (exists made, entries_after r = entries ++ made) /\
  pull_dir r = push_dir r /\
  push_dir r = path_join (output_test_dir self) "sync_dir" /\
  crash_dir r = path_join (output_test_dir self) "crashes".
Proof.
  unfold pre_exec. case_bool_decide as Hlen.
  - destruct (isdir entries "sync_dir") eqn:Es; [|discriminate].
    destruct (isdir entries "crashes") eqn:Ec; [|discriminate].
    simpl. intros H. injection H as <-. simpl.
    repeat split; try assumption. exists []. now rewrite app_nil_r.
  - destruct (mkdir _ "sync_dir" entries) as [e|entries1] eqn:E1;
      [discriminate|].
    destruct (mkdir _ "crashes" entries1) as [e|entries2] eqn:E2;
      [discriminate|].
    apply mkdir_returned in E1 as [_ ->].
    apply mkdir_returned in E2 as [_ ->].
    intros H. injection H as <-. simpl. repeat split.
    + rewrite !isdir_app. unfold isdir at 2.
      rewrite bool_decide_eq_true_2 by (apply list_elem_of_singleton; done).
      now rewrite orb_true_r.
    + rewrite !isdir_app. unfold isdir at 3.
      rewrite bool_decide_eq_true_2 by (apply list_elem_of_singleton; done).
      now rewrite orb_true_r.
    + eexists. now rewrite <- app_assoc.
Qed.

(** X19: an output directory with more than one entry is resumed: the
    seeds are then taken from [sync_dir], whatever [--input_seeds] said, no
    directory is made and no seed is faked.  With at most one entry the
    run is new: the two directories are made, the seeds stay as given, and
    seeds are faked exactly when none were given. *)
Theorem pre_exec_seeds (self : Frontend) (entries : Listing) (r : Prepared) :
  pre_exec self entries = inr r ->
  ((1 < length entries)%nat ->
     seeds r = Some (push_dir r) /\ entries_after r = entries /\
     fake_seeds r = false /\ length (logged r) = 1%nat) /\
  ((length entries <= 1)%nat ->
     seeds r = input_seeds self /\
     entries_after r = entries ++ [("sync_dir", true); ("crashes", true)] /\
     (fake_seeds r = true <-> input_seeds self = None) /\
     logged r = []).
Proof.
  unfold pre_exec. case_bool_decide as Hlen.
  - destruct (isdir entries "sync_dir"); [|discriminate].
    destruct (isdir entries "crashes"); [|discriminate].
    simpl. intros H. injection H as <-. simpl.
    split; [done|]. intros H. lia.
  - destruct (mkdir _ "sync_dir" entries) as [e|entries1] eqn:E1;
      [discriminate|].
    destruct (mkdir _ "crashes" entries1) as [e|entries2] eqn:E2;
      [discriminate|].
    apply mkdir_returned in E1 as [_ ->].
    apply mkdir_returned in E2 as [_ ->].
    intros H. injection H as <-. simpl. split; [intros H; lia|].
    intros _. split; [reflexivity|]. split; [now rewrite <- app_assoc|].
    split; [|reflexivity].
    destruct (input_seeds self); split; done.
Qed.


(** ** The example run *)

Lemma compile_flags_witness :
  exists user : list string,
    compile example_frontend false
      = ("/usr/local/lib/libdeepstate_HFUZZ.a", "-ldeepstate" :: user,
         "Test.hfuzz") /\
    join " " user = "-O2  -g" /\ length user = 3%nat.
Proof.
  destruct (compile_flags example_frontend false) as (user & Hc & _ & Hargs).
  exists user. split; [exact Hc|].
  destruct (Hargs "-O2  -g" eq_refl) as (Hj & Hl & _); [discriminate|].
  split; [exact Hj|exact Hl].
Defined.

Lemma stats_keys_witness :
  exists d, stats example_report example_listing = inr d /\
            length d = 18%nat /\ dict_get "CRASHES" d = inr (Some "2").
Proof.
  destruct (stats example_report example_listing) as [e|d] eqn:E;
    [vm_compute in E; discriminate E|].
  exists d. split; [reflexivity|].
  destruct (stats_keys example_report example_listing d E) as (_ & Hl & Hc).
  split; [exact Hl|exact Hc].
Defined.

Lemma stats_short_report_witness :
  (length (take 9 example_report) <= 9)%nat /\
  stats (take 9 example_report) example_listing
    = inr (initial_stats ++ [("CRASHES", Some "2")]).
Proof.
  split; [simpl; lia|].
  apply (stats_short_report (take 9 example_report) example_listing).
  simpl. lia.
Defined.


Lemma stats_last_line_witness :
  exists d, stats example_report example_listing = inr d /\
            dict_get "PID" d = inr (Some "4243").
Proof.
  destruct (stats example_report example_listing) as [e|d] eqn:E;
    [vm_compute in E; discriminate E|].
  exists d. split; [reflexivity|].
  destruct (stats_last_line example_report example_listing
              [" mutationsPerRun : 6"; " timeout         : 1 (sec)";
               " fuzzTarget      : ./Test.hfuzz "; "PID: 4242";
               "SIGNAL: SIGSEGV (11)"]
              ["FAULT ADDRESS: 0x0"]
              "PID: 4243 : again" "PID" d eq_refl)
    as (before & piece & rest & Hs & Hg).
  - solve [repeat first [apply list_elem_of_here|apply list_elem_of_further]].
  - reflexivity.
  - intros l' Hl'. apply list_elem_of_singleton in Hl' as ->. reflexivity.
  - exact E.
  - vm_compute in Hs. injection Hs as <- <- <-. exact Hg.
Defined.

Lemma stats_values_witness :
  exists d, stats example_report example_listing = inr d /\
            dict_get "fuzzTarget" d = inr (Some "./Test.hfuzz") /\
            contains ":" "./Test.hfuzz" = false /\
            dict_get "ASLimit" d = inr None.
Proof.
  destruct (stats example_report example_listing) as [e|d] eqn:E;
    [vm_compute in E; discriminate E|].
  exists d. split; [reflexivity|].
  assert (Hget : dict_get "fuzzTarget" d = inr (Some "./Test.hfuzz")).
  { vm_compute in E. injection E as <-. reflexivity. }
  split; [exact Hget|].
  destruct (stats_values example_report example_listing d "fuzzTarget" E)
    as [Hv _]; [discriminate|].
  destruct (Hv _ Hget) as (_ & Hc & _). split; [exact Hc|].
  destruct (stats_values example_report example_listing d "ASLimit" E)
    as [_ Hn]; [discriminate|].
  apply Hn.
  - solve [repeat first [apply list_elem_of_here|apply list_elem_of_further]].
  - intros l Hl. vm_compute in Hl.
    repeat (apply elem_of_cons in Hl as [->|Hl]; [reflexivity|]).
    now apply elem_of_nil in Hl.
Defined.


Lemma pre_exec_directories_witness :
  exists r, pre_exec example_frontend [] = inr r /\
            isdir (entries_after r) "sync_dir" = true /\
            isdir (entries_after r) "crashes" = true.
Proof.
  destruct (pre_exec example_frontend []) as [e|r] eqn:E;
    [vm_compute in E; discriminate E|].
  exists r. split; [reflexivity|].
  destruct (pre_exec_directories example_frontend [] r E) as (H1 & H2 & _).
  split; [exact H1|exact H2].
Defined.

Lemma pre_exec_seeds_witness :
  exists r,
    pre_exec example_frontend
      [("sync_dir", true); ("crashes", true); ("HONGGFUZZ.REPORT.TXT", false)]
      = inr r /\
    seeds r = Some "out/sync_dir".
Proof.
  destruct (pre_exec example_frontend
              [("sync_dir", true); ("crashes", true);
               ("HONGGFUZZ.REPORT.TXT", false)]) as [e|r] eqn:E;
    [vm_compute in E; discriminate E|].
  exists r. split; [reflexivity|].
  destruct (pre_exec_seeds example_frontend _ r E) as [H _].
  destruct H as (Hs & _); [simpl; lia|].
  rewrite Hs. vm_compute in E. injection E as <-. reflexivity.
Defined.


End HonggfuzzFacts.
